(** * sample_without_cat90.py: focused sampling of a COCO data set

    A shallow embedding of [create_focused_sample_no_cat90] and the
    properties its specification states about it.

    Conventions of the embedding
    - Python ints that are read from the input (ids, parameters) are [Z];
      lengths and counts are [nat].
    - A JSON record the code only reads two keys of is a Rocq record with
      those keys and an opaque remainder.
    - [collections.Counter] is an association list in first-insertion
      order, because [most_common] breaks ties by that order.
    - [defaultdict(set)], [defaultdict(list)] and [set()] are stdpp's
      [gmap] and [gset]; the order of iterating over a set is an interface
      ([SetOrder]).
    - The pseudo random generator is an interface ([RandomGen]): only the
      documented contract of [random.seed] and [random.sample] is used.
    - Exceptions are a sum type, file system writes are a list of events. *)

From stdpp Require Import base gmap sets list strings sorting.
From Stdlib Require Import ZArith Lia.

Local Open Scope Z_scope.

#[local] Set Warnings "-clear-no-such-hyp".

(** ** Data model *)

(** Passthrough JSON values; the program never looks inside them. *)
#[warnings="-register-all"]
Inductive json : Type :=
| JNull
| JBool (b : bool)
| JInt (z : Z)
| JStr (s : string)
| JList (l : list json)
| JObj (fields : list (string * json)).

(** An element of [data['images']]: the code reads [img['id']] and
    [img['file_name']]. *)
Record Image : Type := mkImage {
  img_id : Z;
  file_name : string;
  img_rest : list (string * json)
}.

(** An element of [data['annotations']]: the code reads
    [ann['image_id']] and [ann['category_id']]. *)
Record Annotation : Type := mkAnnotation {
  image_id : Z;
  category_id : Z;
  ann_rest : list (string * json)
}.

(** The parsed input file.  [info] and [licenses] are optional keys
    (read with [data.get]). *)
Record Dataset : Type := mkDataset {
  images : list Image;
  annotations : list Annotation;
  categories : list json;
  info : option json;
  licenses : option json
}.

(** The dictionary [sampled_data] that is serialised and returned. *)
Record SampledData : Type := mkSampledData {
  out_images : list Image;
  out_annotations : list Annotation;
  out_categories : list json;
  out_info : json;
  out_licenses : json
}.

(** The excluded catch-all category (the literal [90] of the source). *)
Definition EXCLUDED : Z := 90.

(** ** collections.Counter *)

Module Counter.

(** Keys in order of first insertion, each with its count. *)
Definition t : Type := list (Z * nat).

(** [c[k] += 1] *)
Fixpoint incr (k : Z) (c : t) : t :=
  match c with
  | [] => [(k, 1%nat)]
  | (k', n) :: rest =>
      if decide (k' = k) then (k', S n) :: rest
      else (k', n) :: incr k rest
  end.

(** [Counter(iterable)] *)
Definition of_list (xs : list Z) : t :=
  fold_left (fun c k => incr k c) xs [].

(** [c[k]]: a missing key counts zero. *)
Fixpoint get (c : t) (k : Z) : nat :=
  match c with
  | [] => 0%nat
  | (k', n) :: rest => if decide (k' = k) then n else get rest k
  end.

Definition keys (c : t) : list Z := c.*1.

(** [sum(c.values())] *)
Definition total (c : t) : nat := foldr (λ kn acc, (kn.2 + acc)%nat) 0%nat c.

(** [sorted(c.items(), key=itemgetter(1), reverse=True)]: Python's sort
    is stable, also with [reverse=True], so among equal counts the item
    inserted first stays first. *)
Fixpoint insert_desc (x : Z * nat) (l : t) : t :=
  match l with
  | [] => [x]
  | y :: ys =>
      if decide (y.2 ≤ x.2)%nat then x :: y :: ys
      else y :: insert_desc x ys
  end.

Definition sort_desc (c : t) : t := foldr insert_desc [] c.

(** [c.most_common(n)] for an integer [n]: [heapq.nlargest(n, items)],
    which is [sorted(items, reverse=True)[:n]] for [n >= 0] and the
    empty list for a negative [n]. *)
Definition most_common (n : Z) (c : t) : t :=
  take (Z.to_nat n) (sort_desc c).

(** Number of occurrences of [k] in [xs]. *)
Definition occ (k : Z) (xs : list Z) : nat := length (filter (λ x, x = k) xs).

(** The order [sort_desc] sorts by: [x] counts at least as much as [y]. *)
Definition ge_count (x y : Z * nat) : Prop := (y.2 ≤ x.2)%nat.

End Counter.

(** ** Category ranking (source lines 46 to 56) *)

(** [ann['category_id'] for ann in data['annotations'] if ann['category_id'] != 90] *)
Fixpoint counted_ids (anns : list Annotation) : list Z :=
  match anns with
  | [] => []
  | ann :: rest =>
      if decide (category_id ann ≠ EXCLUDED) then category_id ann :: counted_ids rest
      else counted_ids rest
  end.

Definition category_counts (data : Dataset) : Counter.t :=
  Counter.of_list (counted_ids (annotations data)).

(** [sum(1 for ann in data['annotations'] if ann['category_id'] == 90)] *)
Fixpoint cat_90_count (anns : list Annotation) : nat :=
  match anns with
  | [] => 0%nat
  | ann :: rest =>
      if decide (category_id ann = EXCLUDED) then S (cat_90_count rest)
      else cat_90_count rest
  end.

Definition top_categories (data : Dataset) (top_n_categories : Z) : list Z :=
  (Counter.most_common top_n_categories (category_counts data)).*1.

Example top_categories_ex :
  top_categories
    (mkDataset []
       [mkAnnotation 1 7 []; mkAnnotation 1 90 []; mkAnnotation 2 5 [];
        mkAnnotation 2 90 []; mkAnnotation 3 5 []; mkAnnotation 3 90 [];
        mkAnnotation 4 9 []]
       [] None None) 2 = [5; 7].
Proof. reflexivity. Qed.

(** ** The random module *)

Inductive exn : Type :=
| ValueError
| ZeroDivisionError.

(** The generator behind [random.seed] and [random.sample].
    [seed_state a] is the state [random.seed(a)] installs, whatever the
    state was before.  [sample_indices g n k] gives the [k] positions that
    [random.sample] selects in a population of [n] elements and the next
    state: the positions are in range and pairwise different (sampling
    without replacement); the elements themselves are never inspected. *)
Class RandomGen : Type := {
  rng_state : Type;
  seed_state : Z → rng_state;
  sample_indices : rng_state → nat → nat → list nat * rng_state;
  sample_indices_length g n k :
    (k ≤ n)%nat → length (sample_indices g n k).1 = k;
  sample_indices_bound g n k :
    (k ≤ n)%nat → Forall (λ i, (i < n)%nat) (sample_indices g n k).1;
  sample_indices_NoDup g n k :
    (k ≤ n)%nat → NoDup (sample_indices g n k).1
}.

(** Iterating over a [set] of ints: the order is whatever the hash table
    yields, so only "each member once" is known about it. *)
Class SetOrder : Type := {
  set_iter : gset Z → list Z;
  set_iter_perm s : set_iter s ≡ₚ elements s
}.

Section Sampling.
Context `{RandomGen} `{SetOrder}.

(** [random.seed(seed)]: the previous state of the global generator is
    discarded. *)
Definition random_seed (previous : rng_state) (seed : Z) : rng_state :=
  seed_state seed.

(** [random.sample(population, k)]: raises [ValueError] unless
    [0 <= k <= len(population)]. *)
Definition random_sample {A : Type} (g : rng_state) (population : list A) (k : Z)
  : exn + (list A * rng_state) :=
  if decide (0 ≤ k ≤ Z.of_nat (length population)) then
    let r := sample_indices g (length population) (Z.to_nat k) in
    inr (omap (λ i, population !! i) r.1, r.2)
  else inl ValueError.

(** *** Grouping (source lines 63 to 81) *)

(** [image_categories]: for each image id, the set of top categories
    among its annotations. *)
Definition image_categories_step (top : list Z)
    (m : gmap Z (gset Z)) (ann : Annotation) : gmap Z (gset Z) :=
  if decide (category_id ann ∈ top) then
    <[image_id ann := default ∅ (m !! image_id ann) ∪ {[category_id ann]}]> m
  else m.

Definition image_categories (top : list Z) (anns : list Annotation)
  : gmap Z (gset Z) :=
  fold_left (image_categories_step top) anns ∅.

(** [img['id'] in image_categories and len(image_categories[img['id']]) > 0] *)
Definition is_eligible (ic : gmap Z (gset Z)) (img : Image) : bool :=
  match ic !! img_id img with
  | Some s => bool_decide (0 < size s)%nat
  | None => false
  end.

Fixpoint eligible_images (ic : gmap Z (gset Z)) (imgs : list Image) : list Image :=
  match imgs with
  | [] => []
  | img :: rest =>
      if is_eligible ic img then img :: eligible_images ic rest
      else eligible_images ic rest
  end.

(** [category_image_map[cat_id].append(img)] *)
Definition cim_append (img : Image)
    (m : gmap Z (list Image)) (cat_id : Z) : gmap Z (list Image) :=
  <[cat_id := default [] (m !! cat_id) ++ [img]]> m.

Definition category_image_map_step (ic : gmap Z (gset Z))
    (m : gmap Z (list Image)) (img : Image) : gmap Z (list Image) :=
  fold_left (cim_append img) (set_iter (default ∅ (ic !! img_id img))) m.

Definition category_image_map (ic : gmap Z (gset Z)) (eligible : list Image)
  : gmap Z (list Image) :=
  fold_left (category_image_map_step ic) eligible ∅.

(** [category_image_map[cat_id]] on a [defaultdict(list)]. *)
Definition available_images (cim : gmap Z (list Image)) (cat_id : Z) : list Image :=
  default [] (cim !! cat_id).

(** *** The sampling loop (source lines 84 to 90) *)

Definition sample_size (images_per_category : Z) (available : list Image) : Z :=
  Z.min images_per_category (Z.of_nat (length available)).

(** State of the loop: the generator, [sampled_image_ids], and a record
    of the list [sampled] of every iteration, oldest first. *)
Record SampleState : Type := mkSampleState {
  st_rng : rng_state;
  sampled_image_ids : gset Z;
  draws : list (Z * list Image)
}.

(** [for img in sampled: sampled_image_ids.add(img['id'])] *)
Definition add_ids (ids : gset Z) (sampled : list Image) : gset Z :=
  fold_left (λ s img, s ∪ {[img_id img]}) sampled ids.

Definition sample_category (cim : gmap Z (list Image)) (images_per_category : Z)
    (st : SampleState) (cat_id : Z) : exn + SampleState :=
  let available := available_images cim cat_id in
  match random_sample (st_rng st) available (sample_size images_per_category available) with
  | inl e => inl e
  | inr (sampled, g') =>
      inr (mkSampleState g' (add_ids (sampled_image_ids st) sampled)
             (draws st ++ [(cat_id, sampled)]))
  end.

Fixpoint sample_loop (cim : gmap Z (list Image)) (images_per_category : Z)
    (cats : list Z) (st : SampleState) : exn + SampleState :=
  match cats with
  | [] => inr st
  | cat_id :: rest =>
      match sample_category cim images_per_category st cat_id with
      | inl e => inl e
      | inr st' => sample_loop cim images_per_category rest st'
      end
  end.

(** Lines 31 to 90 together: seed, rank, group, sample. *)
Definition sampling_stage (previous : rng_state) (data : Dataset)
    (top_n_categories images_per_category seed : Z) : exn + SampleState :=
  let g := random_seed previous seed in
  let top := top_categories data top_n_categories in
  let ic := image_categories top (annotations data) in
  let cim := category_image_map ic (eligible_images ic (images data)) in
  sample_loop cim images_per_category top (mkSampleState g ∅ []).

(** *** Filtering (source lines 92 to 102) *)

(** [[img for img in data['images'] if img['id'] in sampled_image_ids]] *)
Fixpoint sampled_images (ids : gset Z) (imgs : list Image) : list Image :=
  match imgs with
  | [] => []
  | img :: rest =>
      if decide (img_id img ∈ ids) then img :: sampled_images ids rest
      else sampled_images ids rest
  end.

(** [[ann for ann in data['annotations']
      if ann['image_id'] in sampled_image_ids and ann['category_id'] != 90]] *)
Fixpoint sampled_annotations (ids : gset Z) (anns : list Annotation)
  : list Annotation :=
  match anns with
  | [] => []
  | ann :: rest =>
      if decide (image_id ann ∈ ids) then
        if decide (category_id ann ≠ EXCLUDED) then
          ann :: sampled_annotations ids rest
        else sampled_annotations ids rest
      else sampled_annotations ids rest
  end.

End Sampling.

(** ** Writing the outputs (source lines 104 to 196) *)

(** What the run leaves behind, in program order.  Creating the output
    directories and printing progress are not recorded. *)
Record ReportLine : Type := mkReportLine {
  line_rank : nat;
  line_cat : Z;
  line_count : nat;
  line_images : nat
}.

Record Report : Type := mkReport {
  report_top_n : Z;
  report_lines : list ReportLine;
  report_total_images : nat;
  report_total_annotations : nat;
  report_cat_90_removed : nat
}.

Inductive event : Type :=
| WriteJson (d : SampledData)        (* json.dump to annotations.json *)
| CopyFile (name : string)           (* shutil.copy2(src, dst) *)
| WriteCategoryInfo (r : Report).    (* category_info.txt *)

(** [data.get('info', {})] and [data.get('licenses', [])] *)
Definition make_sampled_data (data : Dataset)
    (imgs : list Image) (anns : list Annotation) : SampledData :=
  mkSampledData imgs anns (categories data)
    (default (JObj []) (info data)) (default (JList []) (licenses data)).

(** The copy loop.  [src_files] holds the file names [n] for which
    [Path(input_images_dir) / n] exists. *)
Record CopyState : Type := mkCopyState {
  copied : nat;
  missing : nat;
  copy_events : list event
}.

Definition copy_step (src_files : gset string) (st : CopyState) (img : Image)
  : CopyState :=
  if decide (file_name img ∈ src_files) then
    mkCopyState (copied st + 1) (missing st) (copy_events st ++ [CopyFile (file_name img)])
  else
    mkCopyState (copied st) (missing st + 1) (copy_events st).

Definition copy_images (src_files : gset string) (imgs : list Image) : CopyState :=
  fold_left (copy_step src_files) imgs (mkCopyState 0 0 []).

(** [len(sampled_annotations) / len(sampled_images)]: true division of two
    ints, kept as the exact fraction (numerator, denominator). *)
Definition true_div (a b : nat) : exn + (nat * nat) :=
  if decide (b = 0%nat) then inl ZeroDivisionError else inr (a, b).

(** [sum(1 for ann in data['annotations']
         if ann['image_id'] in sampled_image_ids and ann['category_id'] == 90)] *)
Fixpoint cat_90_in_sample (ids : gset Z) (anns : list Annotation) : nat :=
  match anns with
  | [] => 0%nat
  | ann :: rest =>
      if decide (image_id ann ∈ ids) then
        if decide (category_id ann = EXCLUDED) then S (cat_90_in_sample ids rest)
        else cat_90_in_sample ids rest
      else cat_90_in_sample ids rest
  end.

(** [len([img for img in sampled_images if cat_id in image_categories[img['id']]])] *)
Fixpoint images_with_cat (ic : gmap Z (gset Z)) (cat_id : Z) (imgs : list Image) : nat :=
  match imgs with
  | [] => 0%nat
  | img :: rest =>
      if decide (cat_id ∈ default ∅ (ic !! img_id img)) then S (images_with_cat ic cat_id rest)
      else images_with_cat ic cat_id rest
  end.

(** [sum(count for cat_id, count in sampled_category_counts.items()
         if cat_id not in top_categories and cat_id != 90)] *)
Fixpoint other_categories (top : list Z) (counts : Counter.t) : nat :=
  match counts with
  | [] => 0%nat
  | (cat_id, count) :: rest =>
      if decide (cat_id ∉ top) then
        if decide (cat_id ≠ EXCLUDED) then (count + other_categories top rest)%nat
        else other_categories top rest
      else other_categories top rest
  end.

(** The lines of [enumerate(top_categories, 1)]. *)
Fixpoint report_lines_from (i : nat) (ic : gmap Z (gset Z)) (counts : Counter.t)
    (imgs : list Image) (cats : list Z) : list ReportLine :=
  match cats with
  | [] => []
  | cat_id :: rest =>
      mkReportLine i cat_id (Counter.get counts cat_id) (images_with_cat ic cat_id imgs)
        :: report_lines_from (S i) ic counts imgs rest
  end.

Record Run : Type := mkRun {
  effects : list event;
  copy_state : option CopyState;
  outcome : exn + (SampledData * list Z)
}.

Section Procedure.
Context `{RandomGen} `{SetOrder}.

(** [create_focused_sample_no_cat90].  [previous] is the state of the
    global generator when the function is entered, [src_files] the
    content of [input_images_dir]. *)
Definition create_focused_sample_no_cat90 (previous : rng_state)
    (data : Dataset) (src_files : gset string)
    (top_n_categories images_per_category seed : Z) : Run :=
  match sampling_stage previous data top_n_categories images_per_category seed with
  | inl e => mkRun [] None (inl e)
  | inr st =>
      let top := top_categories data top_n_categories in
      let ic := image_categories top (annotations data) in
      let ids := sampled_image_ids st in
      let imgs := sampled_images ids (images data) in
      let anns := sampled_annotations ids (annotations data) in
      let sampled_category_counts := Counter.of_list (category_id <$> anns) in
      let sampled_data := make_sampled_data data imgs anns in
      let cs := copy_images src_files imgs in
      let written := WriteJson sampled_data :: copy_events cs in
      match true_div (length anns) (length imgs) with
      | inl e => mkRun written (Some cs) (inl e)
      | inr _ =>
          let report :=
            mkReport top_n_categories
              (report_lines_from 1 ic sampled_category_counts imgs top)
              (length imgs) (length anns)
              (cat_90_in_sample ids (annotations data)) in
          mkRun (written ++ [WriteCategoryInfo report]) (Some cs)
            (inr (sampled_data, top))
      end
  end.

(** The content of annotations.json, when the run gets to write it. *)
Definition json_output (r : Run) : option SampledData :=
  match effects r with
  | WriteJson d :: _ => Some d
  | _ => None
  end.

End Procedure.

(** The [__main__] block: the data set of train.json and the content of
    the image directory, with 15 categories, 150 images each and seed 42. *)
Definition main `{RandomGen} `{SetOrder} (previous : rng_state)
    (train_json : Dataset) (train_images : gset string) : Run :=
  create_focused_sample_no_cat90 previous train_json train_images 15 150 42.

(** ** Notions used in the statements *)

(** Number of input annotations of category [c]. *)
Definition annotation_count (data : Dataset) (c : Z) : nat :=
  length (filter (λ ann, category_id ann = c) (annotations data)).

(** The categories that are ranked: those of some annotation, without the
    excluded one. *)
Definition ranked_categories (data : Dataset) : gset Z :=
  list_to_set (filter (λ c, c ≠ EXCLUDED) (category_id <$> annotations data)).

(** [img] has an annotation of category [c]. *)
Definition contains_category (data : Dataset) (c : Z) (img : Image) : Prop :=
  Exists (λ ann, image_id ann = img_id img ∧ category_id ann = c) (annotations data).

#[global] Instance contains_category_dec data c img :
  Decision (contains_category data c img).
Proof. unfold contains_category. apply _. Defined.

(** The images that contain category [c], in input order. *)
Definition images_containing (data : Dataset) (c : Z) : list Image :=
  filter (contains_category data c) (images data).

(** The eligible images that contain category [c]: the pool its quota is
    drawn from. *)
Definition eligible_pool (data : Dataset) (top_n_categories : Z) (c : Z) : list Image :=
  filter (contains_category data c)
    (eligible_images
       (image_categories (top_categories data top_n_categories) (annotations data))
       (images data)).

(** One draw: as many images as [sample_size] says, all from the pool
    of the category, and the whole pool when the cap does not bind. *)
Definition good_draw (cim : gmap Z (list Image)) (images_per_category : Z)
    (d : Z * list Image) : Prop :=
  Z.of_nat (length d.2) = sample_size images_per_category (available_images cim d.1)
  ∧ (∀ img, img ∈ d.2 → img ∈ available_images cim d.1)
  ∧ (Z.of_nat (length (available_images cim d.1)) ≤ images_per_category →
     d.2 ≡ₚ available_images cim d.1).

(** The file of [img] exists in [input_images_dir]. *)
Definition present (src_files : gset string) (img : Image) : Prop :=
  file_name img ∈ src_files.

#[global] Instance present_dec src_files img : Decision (present src_files img).
Proof. unfold present. apply _. Defined.

(** The selected ids of a sampling stage, or the exception it raised. *)
Definition selected_ids `{RandomGen} (r : exn + SampleState) : exn + gset Z :=
  match r with
  | inl e => inl e
  | inr st => inr (sampled_image_ids st)
  end.

(** [img] has an annotation of one of the categories [top]. *)
Definition has_top_category (data : Dataset) (top : list Z) (img : Image) : Prop :=
  Exists (λ c, contains_category data c img) top.

#[global] Instance has_top_category_dec data top img :
  Decision (has_top_category data top img).
Proof. unfold has_top_category. apply _. Defined.

(** The image that [ann] refers to is one of [imgs]. *)
Definition refers_to (imgs : list Image) (ann : Annotation) : Prop :=
  Exists (λ img, img_id img = image_id ann) imgs.

#[global] Instance refers_to_dec imgs ann : Decision (refers_to imgs ann).
Proof. unfold refers_to. apply _. Defined.

(** The input without its annotations of the excluded category. *)
Definition without_excluded (data : Dataset) : Dataset :=
  mkDataset (images data)
    (filter (λ ann, category_id ann ≠ EXCLUDED) (annotations data))
    (categories data) (info data) (licenses data).

(** ** A concrete generator

    A small generator that meets the [RandomGen] contract: the state is a
    number, a sample takes the first [k] positions of [0 .. n-1] rotated
    by the state, and the state advances by a linear congruence. *)

Definition lcg_next (g : Z) : Z := (g * 1103515245 + 12345) mod 2147483648.

Definition rotate_sample (g : Z) (n k : nat) : list nat * Z :=
  (take k (rotate (Z.to_nat (g mod Z.of_nat (S n))) (seq 0 n)), lcg_next g).

Example rotate_sample_ex : (rotate_sample 42 5 3).1 = [0; 1; 2]%nat
  ∧ (rotate_sample 7 5 3).1 = [1; 2; 3]%nat
  ∧ (rotate_sample 7 5 5).1 = [1; 2; 3; 4; 0]%nat.
Proof. by vm_compute. Qed.

Lemma rotate_sample_length g n k :
  (k ≤ n)%nat → length (rotate_sample g n k).1 = k.
Proof.
  intros Hk. unfold rotate_sample. simpl.
  rewrite length_take, length_rotate, length_seq. lia.
Qed.

Lemma rotate_seq_perm (m n : nat) : rotate m (seq 0 n) ≡ₚ seq 0 n.
Proof.
  unfold rotate.
  rewrite (Permutation_app_comm (drop _ _) (take _ _)).
  by rewrite take_drop.
Qed.

Lemma rotate_sample_bound g n k :
  (k ≤ n)%nat → Forall (λ i, (i < n)%nat) (rotate_sample g n k).1.
Proof.
  intros _. unfold rotate_sample. simpl.
  apply Forall_take. rewrite rotate_seq_perm.
  apply Forall_forall. intros i Hi. apply elem_of_seq in Hi. lia.
Qed.

Lemma rotate_sample_NoDup g n k :
  (k ≤ n)%nat → NoDup (rotate_sample g n k).1.
Proof.
  intros _. unfold rotate_sample. simpl.
  eapply sublist_NoDup; [|apply sublist_take].
  rewrite rotate_seq_perm. apply NoDup_seq.
Qed.

Definition rotate_gen : RandomGen := {|
  rng_state := Z;
  seed_state := λ a, a;
  sample_indices := rotate_sample;
  sample_indices_length := rotate_sample_length;
  sample_indices_bound := rotate_sample_bound;
  sample_indices_NoDup := rotate_sample_NoDup
|}.

(** Two iteration orders for sets of ints. *)
Definition elements_order : SetOrder := {|
  set_iter := elements;
  set_iter_perm := λ s, reflexivity (elements s)
|}.

Lemma reverse_elements_perm (s : gset Z) : reverse (elements s) ≡ₚ elements s.
Proof. apply reverse_Permutation. Qed.

Definition reverse_order : SetOrder := {|
  set_iter := λ s, reverse (elements s);
  set_iter_perm := reverse_elements_perm
|}.

(** ** Example inputs *)

Definition image_A : Image := mkImage 1 "A.jpg" [].
Definition image_B : Image := mkImage 2 "B.jpg" [].
Definition image_C : Image := mkImage 3 "C.jpg" [].

Definition category_list : list json :=
  [JObj [("id", JInt 1); ("name", JStr "stop")];
   JObj [("id", JInt 2); ("name", JStr "yield")];
   JObj [("id", JInt 90); ("name", JStr "other-sign")]].

(** Three images: A has category 1, B has only category 90, C has
    categories 1 and 2. *)
Definition scenario : Dataset :=
  mkDataset [image_A; image_B; image_C]
    [mkAnnotation 1 1 []; mkAnnotation 2 90 [];
     mkAnnotation 3 1 []; mkAnnotation 3 2 []]
    category_list None None.

(** Five images of category 7, two of them also with a category 90
    annotation; one annotation points to an image that does not exist. *)
Definition crowded : Dataset :=
  mkDataset
    [mkImage 10 "p.jpg" []; mkImage 11 "q.jpg" []; mkImage 12 "r.jpg" [];
     mkImage 13 "s.jpg" []; mkImage 14 "t.jpg" []]
    [mkAnnotation 10 7 []; mkAnnotation 10 90 []; mkAnnotation 11 7 [];
     mkAnnotation 12 7 []; mkAnnotation 12 90 []; mkAnnotation 13 7 [];
     mkAnnotation 14 7 []; mkAnnotation 14 5 []; mkAnnotation 99 7 []]
    category_list (Some (JObj [("year", JInt 2020)])) None.

(** Only annotations of the excluded category. *)
Definition only_excluded : Dataset :=
  mkDataset [image_A; image_B] [mkAnnotation 1 90 []; mkAnnotation 2 90 []]
    category_list None None.

Definition run_scenario : Run :=
  @create_focused_sample_no_cat90 rotate_gen elements_order 0 scenario {["A.jpg"]} 2 10 42.

Definition run_crowded : Run :=
  @create_focused_sample_no_cat90 rotate_gen elements_order 0 crowded
    {["p.jpg"; "q.jpg"; "s.jpg"]} 15 3 42.

Definition out_crowded : SampledData :=
  mkSampledData
    [mkImage 10 "p.jpg" []; mkImage 11 "q.jpg" []; mkImage 12 "r.jpg" [];
     mkImage 14 "t.jpg" []]
    [mkAnnotation 10 7 []; mkAnnotation 11 7 []; mkAnnotation 12 7 [];
     mkAnnotation 14 7 []; mkAnnotation 14 5 []]
    category_list (JObj [("year", JInt 2020)]) (JList []).

(** The state in which the sampling stage leaves the loop on [crowded]
    with N = 15, a cap of 3 and seed 42. *)
Definition crowded_state : @SampleState rotate_gen :=
  Eval vm_compute in
    match @sampling_stage rotate_gen elements_order 0 crowded 15 3 42 with
    | inr st => st
    | inl _ => @mkSampleState rotate_gen 0 ∅ []
    end.

Example run_crowded_json : json_output run_crowded = Some out_crowded.
Proof. vm_compute. reflexivity. Qed.

Definition out_scenario : SampledData :=
  mkSampledData [image_A; image_C]
    [mkAnnotation 1 1 []; mkAnnotation 3 1 []; mkAnnotation 3 2 []]
    category_list (JObj []) (JList []).

(** The report that [run_crowded] writes. *)
Definition report_crowded : Report :=
  mkReport 15
    [mkReportLine 1 7 4 4; mkReportLine 2 5 1 1]
    4 5 2.

(** * Properties *)

(** ** Counter *)

Module CounterFacts.
Import Counter.

Lemma get_incr k k' c :
  get (incr k c) k' = if decide (k = k') then S (get c k') else get c k'.
Proof.
  induction c as [|[k0 n] c IH]; simpl.
  - by destruct (decide (k = k')).
  - destruct (decide (k0 = k)) as [->|Hne]; simpl.
    + by destruct (decide (k = k')).
    + rewrite IH.
      destruct (decide (k0 = k')), (decide (k = k')); congruence.
Qed.

Lemma keys_incr k c :
  keys (incr k c) = if decide (k ∈ keys c) then keys c else keys c ++ [k].
Proof.
  unfold keys. induction c as [|[k0 n] c IH].
  - rewrite decide_False; [done|]. apply not_elem_of_nil.
  - cbn [incr]. destruct (decide (k0 = k)) as [->|Hne].
    + rewrite decide_True; [done|]. rewrite fmap_cons. left.
    + rewrite !fmap_cons, IH. cbn [fst].
      destruct (decide (k ∈ c.*1)) as [Hin|Hnin].
      * rewrite decide_True; [done|]. by right.
      * rewrite decide_False; [done|]. intros [?|?]%elem_of_cons; congruence.
Qed.

Lemma get_fold xs c k :
  get (fold_left (λ c k, incr k c) xs c) k = (get c k + occ k xs)%nat.
Proof.
  revert c. induction xs as [|x xs IH]; intros c; simpl.
  - unfold occ. simpl. lia.
  - rewrite IH, get_incr. unfold occ. rewrite filter_cons.
    repeat case_decide; simpl; try congruence; lia.
Qed.

Lemma get_of_list xs k : get (of_list xs) k = occ k xs.
Proof. unfold of_list. by rewrite get_fold. Qed.

Lemma keys_fold_NoDup xs c :
  NoDup (keys c) → NoDup (keys (fold_left (λ c k, incr k c) xs c)).
Proof.
  revert c. induction xs as [|x xs IH]; intros c Hc; simpl; [done|].
  apply IH. rewrite keys_incr. case_decide as Hin; [done|].
  apply NoDup_app. split_and!; [done| |apply NoDup_singleton].
  intros y Hy ->%list_elem_of_singleton. done.
Qed.

Lemma keys_fold_elem xs c k :
  k ∈ keys (fold_left (λ c k, incr k c) xs c) ↔ k ∈ keys c ∨ k ∈ xs.
Proof.
  revert c. induction xs as [|x xs IH]; intros c; simpl.
  - rewrite elem_of_nil. tauto.
  - rewrite IH, keys_incr, elem_of_cons. case_decide as Hin.
    + split; [tauto|]. intros [?|[->|?]]; tauto.
    + rewrite elem_of_app, list_elem_of_singleton. tauto.
Qed.

Lemma keys_of_list_NoDup xs : NoDup (keys (of_list xs)).
Proof. apply keys_fold_NoDup. constructor. Qed.

Lemma elem_of_keys_of_list xs k : k ∈ keys (of_list xs) ↔ k ∈ xs.
Proof.
  unfold of_list. rewrite keys_fold_elem. unfold keys. simpl.
  rewrite elem_of_nil. tauto.
Qed.

Lemma get_elem_of c k n : NoDup (keys c) → (k, n) ∈ c → get c k = n.
Proof.
  unfold keys. induction c as [|[k0 n0] c IH]; simpl; intros Hnd Hin.
  - by apply elem_of_nil in Hin.
  - apply NoDup_cons in Hnd as [Hk0 Hnd].
    apply elem_of_cons in Hin as [[= <- <-]|Hin].
    + by rewrite decide_True.
    + rewrite decide_False; [by apply IH|].
      intros ->. apply Hk0. apply list_elem_of_fmap. by exists (k, n).
Qed.

Lemma insert_desc_perm x l : insert_desc x l ≡ₚ x :: l.
Proof.
  induction l as [|y ys IH]; simpl; [done|].
  case_decide; [done|]. rewrite IH. apply Permutation_swap.
Qed.

Lemma sort_desc_perm c : sort_desc c ≡ₚ c.
Proof.
  induction c as [|x c IH]; simpl; [done|].
  by rewrite insert_desc_perm, IH.
Qed.

Lemma insert_desc_sorted x l :
  StronglySorted ge_count l → StronglySorted ge_count (insert_desc x l).
Proof.
  induction 1 as [|y ys Hs IH Hall]; simpl.
  - repeat constructor.
  - case_decide as Hle.
    + constructor; [by constructor|].
      constructor; [done|].
      eapply Forall_impl; [exact Hall|]. unfold ge_count. intros; simpl in *; lia.
    + constructor; [done|].
      rewrite insert_desc_perm. constructor; [|done].
      unfold ge_count. lia.
Qed.

Lemma sort_desc_sorted c : StronglySorted ge_count (sort_desc c).
Proof.
  induction c as [|x c IH]; simpl; [constructor|].
  by apply insert_desc_sorted.
Qed.

(** In a list sorted by decreasing count, every item of a prefix counts
    at least as much as every item behind the prefix. *)
Lemma sorted_take_drop l n x y :
  StronglySorted ge_count l → x ∈ take n l → y ∈ drop n l → ge_count x y.
Proof.
  intros Hs. revert n. induction Hs as [|z zs Hs IH Hall]; intros n Hx Hy.
  - rewrite take_nil in Hx. by apply elem_of_nil in Hx.
  - destruct n as [|n]; simpl in *; [by apply elem_of_nil in Hx|].
    apply elem_of_cons in Hx as [->|Hx]; [|by eapply IH].
    rewrite Forall_forall in Hall. apply Hall.
    by eapply subseteq_drop.
Qed.

Lemma sorted_lookup l i j x y :
  StronglySorted ge_count l → (i < j)%nat →
  l !! i = Some x → l !! j = Some y → ge_count x y.
Proof.
  intros Hs. revert i j. induction Hs as [|z zs Hs IH Hall]; intros i j Hij Hi Hj.
  - done.
  - destruct j as [|j]; [lia|]. destruct i as [|i]; simpl in *.
    + injection Hi as ->. rewrite Forall_forall in Hall. apply Hall.
      by eapply list_elem_of_lookup_2.
    + eapply IH; [|done..]. lia.
Qed.

End CounterFacts.

(** ** Category ranking *)

Lemma counted_ids_filter anns :
  counted_ids anns = filter (λ c, c ≠ EXCLUDED) (category_id <$> anns).
Proof.
  induction anns as [|ann anns IH]; [done|].
  cbn [counted_ids]. rewrite fmap_cons, filter_cons, IH.
  by destruct (decide (category_id ann ≠ EXCLUDED)).
Qed.

Lemma occ_counted_ids anns c :
  Counter.occ c (counted_ids anns) =
    if decide (c = EXCLUDED) then 0%nat
    else length (filter (λ ann, category_id ann = c) anns).
Proof.
  unfold Counter.occ. induction anns as [|ann anns IH].
  - by destruct (decide (c = EXCLUDED)).
  - cbn [counted_ids]. rewrite (filter_cons _ ann).
    destruct (decide (category_id ann ≠ EXCLUDED)) as [Hne|Heq%dec_stable].
    + rewrite filter_cons.
      destruct (decide (category_id ann = c)) as [<-|?]; [|done].
      cbn [length]. rewrite IH, !decide_False by done. done.
    + rewrite IH. destruct (decide (c = EXCLUDED)) as [->|?]; [done|].
      rewrite decide_False by congruence. done.
Qed.

Lemma category_counts_get data c :
  Counter.get (category_counts data) c =
    if decide (c = EXCLUDED) then 0%nat else annotation_count data c.
Proof.
  unfold category_counts. rewrite CounterFacts.get_of_list.
  apply occ_counted_ids.
Qed.

Lemma category_counts_item data c m :
  (c, m) ∈ category_counts data →
  c ≠ EXCLUDED ∧ m = annotation_count data c ∧ (0 < m)%nat.
Proof.
  intros Hin.
  assert (Hk : c ∈ Counter.keys (category_counts data)).
  { apply list_elem_of_fmap. by exists (c, m). }
  unfold category_counts in Hk.
  apply (proj1 (CounterFacts.elem_of_keys_of_list _ _)) in Hk.
  assert (Hget : Counter.get (category_counts data) c = m).
  { apply CounterFacts.get_elem_of; [apply CounterFacts.keys_of_list_NoDup|done]. }
  assert (Hne : c ≠ EXCLUDED).
  { rewrite counted_ids_filter in Hk. by apply list_elem_of_filter in Hk as [? _]. }
  rewrite category_counts_get, decide_False in Hget by done.
  split_and!; [done..|].
  subst m. unfold annotation_count.
  rewrite counted_ids_filter in Hk. apply list_elem_of_filter in Hk as [_ Hk].
  apply list_elem_of_fmap in Hk as (ann & -> & Hann).
  assert (Hf : ann ∈ filter (λ a, category_id a = category_id ann) (annotations data)).
  { by apply list_elem_of_filter. }
  destruct (filter _ (annotations data)); [by apply elem_of_nil in Hf|simpl; lia].
Qed.

Lemma top_categories_item data n c :
  c ∈ top_categories data n →
  ∃ m, (c, m) ∈ take (Z.to_nat n) (Counter.sort_desc (category_counts data)).
Proof.
  unfold top_categories, Counter.most_common.
  intros ([c' m] & -> & Hin)%list_elem_of_fmap. by exists m.
Qed.

Lemma ranked_categories_size data :
  size (ranked_categories data) = length (category_counts data).
Proof.
  unfold ranked_categories. rewrite <- counted_ids_filter.
  rewrite <- (length_fmap fst (category_counts data)).
  change (fst <$> category_counts data) with (Counter.keys (category_counts data)).
  rewrite <- (size_list_to_set (C := gset Z) (Counter.keys (category_counts data)))
    by apply CounterFacts.keys_of_list_NoDup.
  f_equal. apply set_eq. intros c. rewrite !elem_of_list_to_set.
  unfold category_counts. by rewrite CounterFacts.elem_of_keys_of_list.
Qed.

(** C5. The top-N list holds pairwise different category ids, none of them
    the excluded one, each the category of some annotation; it has N
    entries, or all ranked categories when there are fewer than N; it is
    ordered by annotation count, largest first; every ranked category left
    out counts no more than any category kept; and the counts that are
    compared are the numbers of input annotations of each category, with
    nothing counted for category 90. *)
Theorem top_categories_are_most_frequent (data : Dataset) (top_n_categories : Z) :
  let top := top_categories data top_n_categories in
  NoDup top
  ∧ length top = Nat.min (Z.to_nat top_n_categories) (size (ranked_categories data))
  ∧ (∀ c, c ∈ top → c ≠ EXCLUDED ∧ (0 < annotation_count data c)%nat)
  ∧ (∀ i j ci cj, (i < j)%nat → top !! i = Some ci → top !! j = Some cj →
       (annotation_count data cj ≤ annotation_count data ci)%nat)
  ∧ (∀ c c', c ∈ top → c' ∉ top → c' ≠ EXCLUDED →
       (annotation_count data c' ≤ annotation_count data c)%nat)
  ∧ Counter.get (category_counts data) EXCLUDED = 0%nat
  ∧ (∀ c, c ≠ EXCLUDED →
       Counter.get (category_counts data) c = annotation_count data c).
Proof.
  set (sorted := Counter.sort_desc (category_counts data)).
  assert (Hperm : sorted ≡ₚ category_counts data) by apply CounterFacts.sort_desc_perm.
  assert (Hsorted : StronglySorted Counter.ge_count sorted)
    by apply CounterFacts.sort_desc_sorted.
  assert (Htop : top_categories data top_n_categories
                 = take (Z.to_nat top_n_categories) (sorted.*1)).
  { unfold top_categories, Counter.most_common. by rewrite fmap_take. }
  assert (Hnd : NoDup (sorted.*1)).
  { rewrite Hperm. apply CounterFacts.keys_of_list_NoDup. }
  assert (Hitem : ∀ c m, (c, m) ∈ sorted →
            c ≠ EXCLUDED ∧ m = annotation_count data c ∧ (0 < m)%nat).
  { intros c m Hin. apply category_counts_item. by rewrite <- Hperm. }
  cbv zeta. split_and!.
  - rewrite Htop. eapply sublist_NoDup; [exact Hnd|apply sublist_take].
  - rewrite Htop, length_take, length_fmap, ranked_categories_size.
    by rewrite Hperm.
  - intros c (m & Hin)%top_categories_item.
    apply subseteq_take in Hin. destruct (Hitem c m Hin) as (? & -> & ?). done.
  - intros i j ci cj Hij Hi Hj.
    unfold top_categories, Counter.most_common in Hi, Hj. fold sorted in Hi, Hj.
    rewrite list_lookup_fmap in Hi, Hj.
    destruct (take _ sorted !! i) as [[ci' mi]|] eqn:Ei; [|done].
    destruct (take _ sorted !! j) as [[cj' mj]|] eqn:Ej; [|done].
    simpl in Hi, Hj. injection Hi as ->. injection Hj as ->.
    apply lookup_take_Some in Ei as [Ei _]. apply lookup_take_Some in Ej as [Ej _].
    pose proof (CounterFacts.sorted_lookup _ _ _ _ _ Hsorted Hij Ei Ej) as Hge.
    apply list_elem_of_lookup_2 in Ei, Ej.
    destruct (Hitem _ _ Ei) as (_ & -> & _). destruct (Hitem _ _ Ej) as (_ & -> & _).
    exact Hge.
  - intros c c' (m & Hin)%top_categories_item Hnotin Hne.
    fold sorted in Hin.
    destruct (decide (annotation_count data c' = 0)%nat) as [->|Hpos]; [lia|].
    assert (Hc' : (c', annotation_count data c') ∈ sorted).
    { rewrite Hperm.
      assert (Hk : c' ∈ Counter.keys (category_counts data)).
      { unfold category_counts. apply CounterFacts.elem_of_keys_of_list.
        rewrite counted_ids_filter. apply list_elem_of_filter. split; [done|].
        unfold annotation_count in Hpos.
        destruct (filter _ (annotations data)) as [|ann l] eqn:Ef; [done|].
        assert (Hann : ann ∈ filter (λ a, category_id a = c') (annotations data)).
        { rewrite Ef. left. }
        apply list_elem_of_filter in Hann as [<- Hann].
        apply list_elem_of_fmap. by exists ann. }
      apply list_elem_of_fmap in Hk as ([c2 m2] & -> & Hin2).
      by destruct (category_counts_item _ _ _ Hin2) as (_ & -> & _). }
    rewrite <- (take_drop (Z.to_nat top_n_categories) sorted) in Hc'.
    apply elem_of_app in Hc' as [Hc'|Hc'].
    + exfalso. apply Hnotin. unfold top_categories, Counter.most_common.
      fold sorted. apply list_elem_of_fmap. by exists (c', annotation_count data c').
    + pose proof (CounterFacts.sorted_take_drop _ _ _ _ Hsorted Hin Hc') as Hge.
      apply subseteq_take in Hin. destruct (Hitem _ _ Hin) as (_ & -> & _).
      exact Hge.
  - by rewrite category_counts_get, decide_True.
  - intros c Hne. by rewrite category_counts_get, decide_False.
Qed.

(** ** Grouping *)

Lemma image_categories_fold top anns m i c :
  c ∈ default ∅ (fold_left (image_categories_step top) anns m !! i) ↔
  c ∈ default ∅ (m !! i)
  ∨ (c ∈ top ∧ ∃ ann, ann ∈ anns ∧ image_id ann = i ∧ category_id ann = c).
Proof.
  revert m. induction anns as [|ann anns IH]; intros m; cbn [fold_left].
  - split; [by left|]. intros [?|(_ & ann & []%elem_of_nil & _)]; done.
  - rewrite IH. unfold image_categories_step.
    destruct (decide (category_id ann ∈ top)) as [Htop|Hntop].
    + destruct (decide (image_id ann = i)) as [Heq|Hne].
      * rewrite Heq, lookup_insert_eq. cbn [from_option id]. rewrite elem_of_union, elem_of_singleton.
        split.
        -- intros [[? | ->]|(? & a & Ha & ? & ?)].
           ++ by left.
           ++ right. split; [done|]. exists ann. split_and!; [left|done..].
           ++ right. split; [done|]. exists a. split_and!; [by right|done..].
        -- intros [?|(? & a & [-> | Ha]%elem_of_cons & ? & ?)].
           ++ by left; left.
           ++ left; right. done.
           ++ right. split; [done|]. by exists a.
      * rewrite lookup_insert_ne by done. split.
        -- intros [?|(? & a & Ha & ? & ?)]; [by left|].
           right. split; [done|]. exists a. split_and!; [by right|done..].
        -- intros [?|(? & a & [-> | Ha]%elem_of_cons & ? & ?)]; [by left|done|].
           right. split; [done|]. by exists a.
    + split.
      * intros [?|(? & a & Ha & ? & ?)]; [by left|].
        right. split; [done|]. exists a. split_and!; [by right|done..].
      * intros [?|(? & a & [-> | Ha]%elem_of_cons & ? & <-)]; [by left|done|].
        right. split; [done|]. by exists a.
Qed.

Lemma image_categories_spec top anns i c :
  c ∈ default ∅ (image_categories top anns !! i) ↔
  c ∈ top ∧ ∃ ann, ann ∈ anns ∧ image_id ann = i ∧ category_id ann = c.
Proof.
  unfold image_categories. rewrite image_categories_fold, lookup_empty.
  cbn [from_option id]. rewrite elem_of_empty. tauto.
Qed.

Lemma image_categories_contains data top c img :
  c ∈ default ∅ (image_categories top (annotations data) !! img_id img) ↔
  c ∈ top ∧ contains_category data c img.
Proof.
  rewrite image_categories_spec. unfold contains_category. rewrite Exists_exists.
  done.
Qed.

Lemma is_eligible_of_member ic img c :
  c ∈ default ∅ (ic !! img_id img) → is_eligible ic img = true.
Proof.
  unfold is_eligible. destruct (ic !! img_id img) as [s|]; cbn [from_option id].
  - intros Hc. apply bool_decide_eq_true.
    assert (size s ≠ 0)%nat; [|lia].
    intros Hz%size_empty_inv. set_solver.
  - by intros []%elem_of_empty.
Qed.

Lemma eligible_images_sublist ic imgs : eligible_images ic imgs `sublist_of` imgs.
Proof.
  induction imgs as [|img imgs IH]; cbn [eligible_images]; [done|].
  destruct (is_eligible ic img); by constructor.
Qed.

Lemma filter_eligible_images ic imgs c :
  filter (λ img, c ∈ default ∅ (ic !! img_id img)) (eligible_images ic imgs)
  = filter (λ img, c ∈ default ∅ (ic !! img_id img)) imgs.
Proof.
  induction imgs as [|img imgs IH]; cbn [eligible_images]; [done|].
  destruct (is_eligible ic img) eqn:E.
  - by rewrite !filter_cons, IH.
  - rewrite IH, (filter_cons _ img imgs). rewrite decide_False; [done|].
    intros Hc%is_eligible_of_member. congruence.
Qed.

Section Pools.
Context `{SetOrder}.

Lemma set_iter_NoDup s : NoDup (set_iter s).
Proof. rewrite set_iter_perm. apply NoDup_elements. Qed.

Lemma elem_of_set_iter s c : c ∈ set_iter s ↔ c ∈ s.
Proof. rewrite set_iter_perm. apply elem_of_elements. Qed.

Lemma cim_append_fold img l m c :
  NoDup l →
  available_images (fold_left (cim_append img) l m) c
  = available_images m c ++ (if decide (c ∈ l) then [img] else []).
Proof.
  intros Hnd. revert m. induction Hnd as [|x l Hx Hnd IH]; intros m; cbn [fold_left].
  - rewrite decide_False by apply not_elem_of_nil. by rewrite app_nil_r.
  - rewrite IH. unfold available_images, cim_append.
    destruct (decide (x = c)) as [->|Hne].
    + rewrite lookup_insert_eq. cbn [from_option id].
      rewrite decide_False by done. rewrite decide_True by left.
      by rewrite app_nil_r.
    + rewrite lookup_insert_ne by done.
      destruct (decide (c ∈ l)) as [Hin|Hnin].
      * rewrite decide_True by (by right). done.
      * rewrite decide_False; [done|]. intros [?|?]%elem_of_cons; congruence.
Qed.

Lemma category_image_map_fold ic eligible m c :
  available_images (fold_left (category_image_map_step ic) eligible m) c
  = available_images m c
    ++ filter (λ img, c ∈ default ∅ (ic !! img_id img)) eligible.
Proof.
  revert m. induction eligible as [|img imgs IH]; intros m; cbn [fold_left].
  - by rewrite app_nil_r.
  - rewrite IH. unfold category_image_map_step.
    rewrite cim_append_fold by apply set_iter_NoDup.
    rewrite filter_cons, <- app_assoc. f_equal.
    destruct (decide (c ∈ default ∅ (ic !! img_id img))) as [Hin|Hnin].
    + rewrite decide_True by (by apply elem_of_set_iter). done.
    + rewrite decide_False by (by rewrite elem_of_set_iter). done.
Qed.

(** The pool of a category is the list of input images that have an
    annotation of it, in input order, whatever the iteration order of
    the sets. *)
Lemma available_images_spec data top c :
  let ic := image_categories top (annotations data) in
  available_images (category_image_map ic (eligible_images ic (images data))) c
  = if decide (c ∈ top) then images_containing data c else [].
Proof.
  cbv zeta. unfold category_image_map. rewrite category_image_map_fold.
  unfold available_images at 1. rewrite lookup_empty. cbn [from_option id app].
  rewrite filter_eligible_images. unfold images_containing.
  destruct (decide (c ∈ top)) as [Hin|Hnin].
  - apply list_filter_iff. intros img. rewrite image_categories_contains. tauto.
  - induction (images data) as [|img imgs IH]; [done|].
    rewrite filter_cons, decide_False; [done|].
    rewrite image_categories_contains. tauto.
Qed.

End Pools.

(** ** Sampling *)

Lemma omap_fmap_compose {A B C : Type} (f : B → option C) (g : A → B) (l : list A) :
  omap f (g <$> l) = omap (f ∘ g) l.
Proof.
  induction l as [|x l IH]; [done|].
  rewrite fmap_cons. cbn [omap list_omap]. unfold compose at 1. by rewrite IH.
Qed.

Lemma omap_lookup_seq {A : Type} (l : list A) :
  omap (λ i, l !! i) (seq 0 (length l)) = l.
Proof.
  induction l as [|x l IH]; [done|].
  cbn [length seq omap list_omap lookup list_lookup].
  rewrite <- fmap_S_seq, omap_fmap_compose. f_equal. exact IH.
Qed.

Lemma omap_lookup_length {A : Type} (l : list A) (idxs : list nat) :
  Forall (λ i, (i < length l)%nat) idxs →
  length (omap (λ i, l !! i) idxs) = length idxs.
Proof.
  induction 1 as [|i idxs Hi _ IH]; [done|].
  cbn [omap list_omap]. destruct (lookup_lt_is_Some_2 l i Hi) as [x ->].
  cbn [length]. by rewrite IH.
Qed.

Lemma omap_lookup_elem_of {A : Type} (l : list A) (idxs : list nat) x :
  x ∈ omap (λ i, l !! i) idxs → x ∈ l.
Proof.
  intros (i & _ & Hi)%list_elem_of_omap. by eapply list_elem_of_lookup_2.
Qed.

(** Positions that are in range, pairwise different and as many as the
    population are all positions. *)
Lemma all_indices_perm (n : nat) (idxs : list nat) :
  NoDup idxs → Forall (λ i, (i < n)%nat) idxs → length idxs = n →
  idxs ≡ₚ seq 0 n.
Proof.
  intros Hnd Hb Hlen. apply submseteq_length_Permutation.
  - apply NoDup_submseteq; [done|]. intros i Hi. apply elem_of_seq.
    rewrite Forall_forall in Hb. specialize (Hb i Hi). lia.
  - rewrite length_seq. lia.
Qed.

Section SamplingFacts.
Context `{RandomGen} `{SetOrder}.

(** What a successful [random.sample] returns. *)
Lemma random_sample_inr {A : Type} g (population : list A) k sampled g' :
  random_sample g population k = inr (sampled, g') →
  0 ≤ k ≤ Z.of_nat (length population)
  ∧ Z.of_nat (length sampled) = k
  ∧ (∀ x, x ∈ sampled → x ∈ population)
  ∧ (k = Z.of_nat (length population) → sampled ≡ₚ population).
Proof.
  unfold random_sample. case_decide as Hk; [|done]. intros [= <- <-].
  assert (Hle : (Z.to_nat k ≤ length population)%nat) by lia.
  pose proof (sample_indices_length g _ _ Hle) as Hlen.
  pose proof (sample_indices_bound g _ _ Hle) as Hb.
  pose proof (sample_indices_NoDup g _ _ Hle) as Hnd.
  split_and!; [lia..| | |].
  - rewrite omap_lookup_length by done. lia.
  - intros x. apply omap_lookup_elem_of.
  - intros ->. rewrite Nat2Z.id in *.
    rewrite (all_indices_perm _ _ Hnd Hb Hlen). by rewrite omap_lookup_seq.
Qed.

Lemma random_sample_is_inr {A : Type} g (population : list A) k :
  0 ≤ k ≤ Z.of_nat (length population) →
  ∃ sampled g', random_sample g population k = inr (sampled, g').
Proof. intros Hk. unfold random_sample. rewrite decide_True by done. eauto. Qed.

Lemma random_sample_negative {A : Type} g (population : list A) k :
  k < 0 → random_sample g population k = inl ValueError.
Proof. intros Hk. unfold random_sample. rewrite decide_False; [done|lia]. Qed.

Lemma add_ids_union ids sampled :
  add_ids ids sampled = ids ∪ list_to_set (img_id <$> sampled).
Proof.
  unfold add_ids. revert ids. induction sampled as [|img l IH]; intros ids; cbn [fold_left].
  - set_solver.
  - rewrite IH, fmap_cons, list_to_set_cons. set_solver.
Qed.

Lemma sample_category_inr cim cap st cat_id st' :
  sample_category cim cap st cat_id = inr st' →
  ∃ sampled,
    good_draw cim cap (cat_id, sampled)
    ∧ draws st' = draws st ++ [(cat_id, sampled)]
    ∧ sampled_image_ids st' = sampled_image_ids st ∪ list_to_set (img_id <$> sampled).
Proof.
  unfold sample_category.
  destruct (random_sample _ _ _) as [e|[sampled g']] eqn:E; [done|].
  intros [= <-]. exists sampled. cbn.
  apply random_sample_inr in E as (Hk & Hlen & Hsub & Hall).
  split_and!; [|done|apply add_ids_union].
  split_and!; cbn; [done..|].
  intros Hle. apply Hall. unfold sample_size. lia.
Qed.

Lemma sample_loop_inr cim cap cats st st' :
  sample_loop cim cap cats st = inr st' →
  ∃ new,
    draws st' = draws st ++ new
    ∧ new.*1 = cats
    ∧ Forall (good_draw cim cap) new
    ∧ sampled_image_ids st'
      = sampled_image_ids st ∪ list_to_set (img_id <$> mjoin (new.*2)).
Proof.
  revert st. induction cats as [|c cats IH]; intros st; cbn [sample_loop].
  - intros [= <-]. exists []. rewrite app_nil_r. split_and!; [done..|set_solver].
  - destruct (sample_category cim cap st c) as [e|st1] eqn:E; [done|].
    intros (new & Hd & Hc & Hg & Hi)%IH.
    apply sample_category_inr in E as (sampled & Hgood & Hd1 & Hi1).
    exists ((c, sampled) :: new). split_and!.
    + rewrite Hd, Hd1, <- app_assoc. done.
    + cbn. by rewrite Hc.
    + by constructor.
    + rewrite Hi, Hi1. cbn. rewrite fmap_app, list_to_set_app_L. set_solver.
Qed.

Lemma sample_loop_is_inr cim cap cats st :
  0 ≤ cap ∨ cats = [] → ∃ st', sample_loop cim cap cats st = inr st'.
Proof.
  intros Hcap. revert st. induction cats as [|c cats IH]; intros st; cbn [sample_loop].
  - eauto.
  - destruct Hcap as [Hcap|?]; [|done].
    unfold sample_category.
    destruct (random_sample_is_inr (st_rng st) (available_images cim c)
                (sample_size cap (available_images cim c))) as (sampled & g' & ->).
    { unfold sample_size. lia. }
    apply IH. by left.
Qed.

Lemma sample_loop_negative cim cap c cats st :
  cap < 0 → sample_loop cim cap (c :: cats) st = inl ValueError.
Proof.
  intros Hcap. cbn [sample_loop]. unfold sample_category.
  rewrite random_sample_negative; [done|]. unfold sample_size. lia.
Qed.

End SamplingFacts.

(** ** Filtering *)

Lemma sampled_images_filter ids imgs :
  sampled_images ids imgs = filter (λ img, img_id img ∈ ids) imgs.
Proof.
  induction imgs as [|img imgs IH]; [done|].
  cbn [sampled_images]. rewrite filter_cons, IH. done.
Qed.

Lemma sampled_annotations_filter ids anns :
  sampled_annotations ids anns
  = filter (λ ann, image_id ann ∈ ids ∧ category_id ann ≠ EXCLUDED) anns.
Proof.
  induction anns as [|ann anns IH]; [done|].
  cbn [sampled_annotations]. rewrite filter_cons, IH.
  destruct (decide (image_id ann ∈ ids)), (decide (category_id ann ≠ EXCLUDED)).
  - rewrite decide_True; done.
  - rewrite decide_False; [done|tauto].
  - rewrite decide_False; [done|tauto].
  - rewrite decide_False; [done|tauto].
Qed.

Lemma sampled_images_empty imgs : sampled_images ∅ imgs = [].
Proof.
  induction imgs as [|img imgs IH]; [done|].
  cbn [sampled_images]. rewrite decide_False; [done|]. apply not_elem_of_empty.
Qed.

(** A sublist keeps the relative order: two entries of the sublist, one
    before the other, are entries of the list in the same order. *)
Lemma sublist_keeps_order {A : Type} (l k : list A) :
  l `sublist_of` k →
  ∀ i j x y, (i < j)%nat → l !! i = Some x → l !! j = Some y →
    ∃ i' j', (i' < j')%nat ∧ k !! i' = Some x ∧ k !! j' = Some y.
Proof.
  induction 1 as [|a l k Hsub IH|a l k Hsub IH]; intros i j x y Hij Hi Hj.
  - done.
  - destruct j as [|j]; [lia|]. destruct i as [|i]; cbn in Hi, Hj.
    + injection Hi as ->.
      apply list_elem_of_lookup_2 in Hj.
      assert (Hy : y ∈ k) by (by eapply sublist_subseteq).
      apply list_elem_of_lookup_1 in Hy as [j' Hj'].
      exists 0%nat, (S j'). split_and!; [lia|done..].
    + destruct (IH i j x y) as (i' & j' & ? & ? & ?); [lia|done..|].
      exists (S i'), (S j'). split_and!; [lia|done..].
  - destruct (IH i j x y) as (i' & j' & ? & ? & ?); [done..|].
    exists (S i'), (S j'). split_and!; [lia|done..].
Qed.

(** ** The copy loop *)

Lemma copy_images_fold src_files imgs st :
  let st' := fold_left (copy_step src_files) imgs st in
  copied st' = (copied st + length (filter (present src_files) imgs))%nat
  ∧ missing st' = (missing st + length (filter (λ img, ¬ present src_files img) imgs))%nat
  ∧ copy_events st'
    = copy_events st ++ ((λ img, CopyFile (file_name img)) <$> filter (present src_files) imgs).
Proof.
  cbv zeta. revert st. induction imgs as [|img imgs IH]; intros st; cbn [fold_left].
  - rewrite app_nil_r, !filter_nil. cbn [length]. split_and!; [lia|lia|done].
  - destruct (IH (copy_step src_files st img)) as (-> & -> & ->).
    rewrite !filter_cons. unfold copy_step.
    destruct (decide (present src_files img)) as [Hin|Hnin].
    + rewrite decide_True by exact Hin. rewrite decide_False by tauto.
      cbn [copied missing copy_events length fmap list_fmap].
      rewrite <- app_assoc. split_and!; [lia|lia|done].
    + rewrite decide_False by exact Hnin. rewrite decide_True by done.
      cbn [copied missing copy_events length].
      split_and!; [lia|lia|done].
Qed.

Lemma copy_images_spec src_files imgs :
  let cs := copy_images src_files imgs in
  copied cs = length (filter (present src_files) imgs)
  ∧ missing cs = length (filter (λ img, ¬ present src_files img) imgs)
  ∧ copy_events cs
    = (λ img, CopyFile (file_name img)) <$> filter (present src_files) imgs.
Proof.
  cbv zeta. unfold copy_images.
  destruct (copy_images_fold src_files imgs (mkCopyState 0 0 [])) as (-> & -> & ->).
  done.
Qed.

(** ** The whole procedure *)

Section ProcedureFacts.
Context `{RandomGen} `{SetOrder}.

(** The two ways a run can go once the sampling stage is known. *)
Lemma run_cases previous data src_files n cap seed :
  let r := create_focused_sample_no_cat90 previous data src_files n cap seed in
  match sampling_stage previous data n cap seed with
  | inl e => r = mkRun [] None (inl e)
  | inr st =>
      let imgs := sampled_images (sampled_image_ids st) (images data) in
      let anns := sampled_annotations (sampled_image_ids st) (annotations data) in
      let d := make_sampled_data data imgs anns in
      let cs := copy_images src_files imgs in
      copy_state r = Some cs
      ∧ json_output r = Some d
      ∧ (imgs = [] →
         effects r = WriteJson d :: copy_events cs
         ∧ outcome r = inl ZeroDivisionError)
      ∧ (imgs ≠ [] →
         ∃ report,
           effects r = (WriteJson d :: copy_events cs) ++ [WriteCategoryInfo report]
           ∧ outcome r = inr (d, top_categories data n))
  end.
Proof.
  cbv zeta. unfold create_focused_sample_no_cat90.
  destruct (sampling_stage previous data n cap seed) as [e|st]; [done|].
  unfold true_div.
  destruct (decide (length (sampled_images (sampled_image_ids st) (images data)) = 0%nat))
    as [Hz|Hnz].
  - split_and!; [done..| |].
    + done.
    + intros Hne. by apply nil_length_inv in Hz.
  - split_and!; [done..| |].
    + intros Hnil. rewrite Hnil in Hnz. done.
    + intros _. eexists. split; reflexivity.
Qed.

(** Whatever is written to annotations.json comes from a sampling stage
    that did not raise. *)
Lemma json_output_inv previous data src_files n cap seed d :
  json_output (create_focused_sample_no_cat90 previous data src_files n cap seed)
    = Some d →
  ∃ st,
    sampling_stage previous data n cap seed = inr st
    ∧ d = make_sampled_data data
            (sampled_images (sampled_image_ids st) (images data))
            (sampled_annotations (sampled_image_ids st) (annotations data)).
Proof.
  intros Hd.
  pose proof (run_cases previous data src_files n cap seed) as Hr. cbv zeta in Hr.
  destruct (sampling_stage previous data n cap seed) as [e|st].
  - rewrite Hr in Hd. done.
  - destruct Hr as (_ & Hj & _). rewrite Hj in Hd. injection Hd as <-. eauto.
Qed.

(** What the sampling stage selects. *)
Lemma sampling_stage_inr previous data n cap seed st :
  sampling_stage previous data n cap seed = inr st →
  let top := top_categories data n in
  let ic := image_categories top (annotations data) in
  let cim := category_image_map ic (eligible_images ic (images data)) in
  (draws st).*1 = top
  ∧ Forall (good_draw cim cap) (draws st)
  ∧ sampled_image_ids st = list_to_set (img_id <$> mjoin ((draws st).*2)).
Proof.
  unfold sampling_stage. intros (new & Hd & Hc & Hg & Hi)%sample_loop_inr.
  cbn in Hd, Hi. subst new. cbv zeta. split_and!; [done..|].
  rewrite Hi. set_solver.
Qed.

Lemma sampling_stage_is_inr previous data n cap seed :
  0 ≤ cap ∨ top_categories data n = [] →
  ∃ st, sampling_stage previous data n cap seed = inr st.
Proof. intros Hcap. unfold sampling_stage. by apply sample_loop_is_inr. Qed.

(** Every selected id is the id of an input image that has an annotation
    of a top category. *)
Lemma sampled_image_ids_origin previous data n cap seed st i :
  sampling_stage previous data n cap seed = inr st →
  i ∈ sampled_image_ids st →
  ∃ img c, img ∈ images data ∧ img_id img = i
           ∧ c ∈ top_categories data n ∧ contains_category data c img.
Proof.
  intros Hst Hi. apply sampling_stage_inr in Hst as (Htop & Hgood & Hids).
  rewrite Hids in Hi. apply elem_of_list_to_set, list_elem_of_fmap in Hi
    as (img & -> & Himg).
  apply list_elem_of_join in Himg as (sampled & Himg & Hs).
  apply list_elem_of_fmap in Hs as ([c sampled'] & -> & Hd). cbn in Himg.
  rewrite Forall_forall in Hgood. destruct (Hgood _ Hd) as (_ & Hsub & _).
  specialize (Hsub img Himg). cbn in Hsub.
  rewrite available_images_spec in Hsub.
  assert (Hc : c ∈ top_categories data n).
  { rewrite <- Htop. apply list_elem_of_fmap. by exists (c, sampled'). }
  rewrite decide_True in Hsub by done.
  apply list_elem_of_filter in Hsub as [Hcc Hin].
  exists img, c. done.
Qed.

End ProcedureFacts.

(** ** The stated properties *)

Section Claims.
Context `{RandomGen} `{SetOrder}.

(** C1. No annotation written to annotations.json has the excluded
    category id 90. *)
Theorem output_has_no_excluded_category previous data src_files n cap seed d :
  json_output (create_focused_sample_no_cat90 previous data src_files n cap seed)
    = Some d →
  Forall (λ ann, category_id ann ≠ EXCLUDED) (out_annotations d).
Proof.
  intros (st & _ & ->)%json_output_inv. cbn [out_annotations make_sampled_data].
  rewrite sampled_annotations_filter. apply Forall_forall.
  intros ann [[_ Hne] _]%list_elem_of_filter. exact Hne.
Qed.

(** C2. Every image id that an annotation of annotations.json refers to is
    the id of an image in the image list of the same file.  The input
    need not be valid for this: an annotation whose image does not exist
    is never selected. *)
Theorem output_annotations_refer_to_output_images
    previous data src_files n cap seed d :
  json_output (create_focused_sample_no_cat90 previous data src_files n cap seed)
    = Some d →
  ∀ ann, ann ∈ out_annotations d →
    ∃ img, img ∈ out_images d ∧ img_id img = image_id ann.
Proof.
  intros (st & Hst & ->)%json_output_inv ann.
  cbn [out_annotations out_images make_sampled_data].
  rewrite sampled_annotations_filter, sampled_images_filter.
  intros [[Hid _] _]%list_elem_of_filter.
  destruct (sampled_image_ids_origin _ _ _ _ _ _ _ Hst Hid)
    as (img & c & Himg & Heq & _).
  exists img. split; [|done]. apply list_elem_of_filter. split; [|done].
  by rewrite Heq.
Qed.

(** C6. The category list of annotations.json is the category list of the
    input, record for record and in the same order. *)
Theorem output_categories_unchanged previous data src_files n cap seed d :
  json_output (create_focused_sample_no_cat90 previous data src_files n cap seed)
    = Some d →
  out_categories d = categories data.
Proof. by intros (st & _ & ->)%json_output_inv. Qed.

(** C10. The image list and the annotation list of annotations.json are
    sublists of the input lists: records that survive keep their relative
    order, whichever generator and seed drew the sample. *)
Theorem output_keeps_input_order previous data src_files n cap seed d :
  json_output (create_focused_sample_no_cat90 previous data src_files n cap seed)
    = Some d →
  out_images d `sublist_of` images data
  ∧ out_annotations d `sublist_of` annotations data
  ∧ (∀ i j x y, (i < j)%nat →
       out_images d !! i = Some x → out_images d !! j = Some y →
       ∃ i' j', (i' < j')%nat
                ∧ images data !! i' = Some x ∧ images data !! j' = Some y)
  ∧ (∀ i j x y, (i < j)%nat →
       out_annotations d !! i = Some x → out_annotations d !! j = Some y →
       ∃ i' j', (i' < j')%nat
                ∧ annotations data !! i' = Some x ∧ annotations data !! j' = Some y).
Proof.
  intros (st & _ & ->)%json_output_inv.
  cbn [out_annotations out_images make_sampled_data].
  assert (Hi : sampled_images (sampled_image_ids st) (images data)
               `sublist_of` images data).
  { rewrite sampled_images_filter. apply sublist_filter. }
  assert (Ha : sampled_annotations (sampled_image_ids st) (annotations data)
               `sublist_of` annotations data).
  { rewrite sampled_annotations_filter. apply sublist_filter. }
  split_and!; [done..| |]; by apply sublist_keeps_order.
Qed.

End Claims.

Lemma sample_loop_ext `{RandomGen} cim1 cim2 cap cats st :
  (∀ c, available_images cim1 c = available_images cim2 c) →
  sample_loop cim1 cap cats st = sample_loop cim2 cap cats st.
Proof.
  intros Heq. revert st. induction cats as [|c cats IH]; intros st; [done|].
  cbn [sample_loop]. unfold sample_category. rewrite Heq.
  destruct (random_sample _ _ _) as [e|[sampled g']]; [done|]. apply IH.
Qed.

(** C3. With the same input, parameters and seed, two runs select the
    same set of image ids: neither the state the generator was in before
    the call nor the order in which sets are iterated has any influence.
    The same holds for everything else the run produces. *)
Theorem sampling_is_deterministic (gen : RandomGen) (order1 order2 : SetOrder)
    (previous1 previous2 : rng_state) data src_files n cap seed :
  selected_ids (@sampling_stage gen order1 previous1 data n cap seed)
  = selected_ids (@sampling_stage gen order2 previous2 data n cap seed)
  ∧ @create_focused_sample_no_cat90 gen order1 previous1 data src_files n cap seed
    = @create_focused_sample_no_cat90 gen order2 previous2 data src_files n cap seed.
Proof.
  assert (Hstage : @sampling_stage gen order1 previous1 data n cap seed
                   = @sampling_stage gen order2 previous2 data n cap seed).
  { unfold sampling_stage, random_seed. apply sample_loop_ext. intros c.
    by rewrite !available_images_spec. }
  split.
  - by rewrite Hstage.
  - unfold create_focused_sample_no_cat90. by rewrite Hstage.
Qed.

Lemma eligible_pool_spec data n c :
  c ∈ top_categories data n → eligible_pool data n c = images_containing data c.
Proof.
  intros Hc. unfold eligible_pool, images_containing.
  set (ic := image_categories (top_categories data n) (annotations data)).
  transitivity (filter (λ img, c ∈ default ∅ (ic !! img_id img))
                  (eligible_images ic (images data))).
  - apply list_filter_iff. intros img. unfold ic.
    rewrite image_categories_contains. tauto.
  - rewrite filter_eligible_images. apply list_filter_iff. intros img. unfold ic.
    rewrite image_categories_contains. tauto.
Qed.

Section Quota.
Context `{RandomGen} `{SetOrder}.

(** C4. The sampling loop makes one draw per top category, in ranking
    order, and the number of images of a draw is the minimum of the cap
    and the number of eligible images that contain the category: so it is
    at most the cap, at most the size of the pool, and exactly the cap
    when the pool is larger than the cap.  With a cap that is not negative
    the loop always gets through. *)
Theorem quota_is_min_of_cap_and_pool previous data n cap seed :
  (0 ≤ cap → ∃ st, sampling_stage previous data n cap seed = inr st)
  ∧ (∀ st, sampling_stage previous data n cap seed = inr st →
       (draws st).*1 = top_categories data n
       ∧ Forall (λ d,
           let pool := eligible_pool data n d.1 in
           Z.of_nat (length d.2) = Z.min cap (Z.of_nat (length pool))
           ∧ Z.of_nat (length d.2) ≤ cap
           ∧ (length d.2 ≤ length pool)%nat
           ∧ (cap < Z.of_nat (length pool) → Z.of_nat (length d.2) = cap))
         (draws st)).
Proof.
  split.
  - intros Hcap. apply sampling_stage_is_inr. by left.
  - intros st (Htop & Hgood & _)%sampling_stage_inr. split; [done|].
    rewrite Forall_forall in Hgood. apply Forall_forall. intros [c sampled] Hd.
    destruct (Hgood _ Hd) as (Hlen & _ & _). cbn in Hlen |- *.
    assert (Hc : c ∈ top_categories data n).
    { rewrite <- Htop. apply list_elem_of_fmap. by exists (c, sampled). }
    rewrite available_images_spec, decide_True in Hlen by done.
    rewrite eligible_pool_spec by done. unfold sample_size in Hlen. lia.
Qed.

(** When no cap binds, exactly the images with an annotation of a top
    category are selected. *)
Lemma sampled_image_ids_all previous data n cap seed st :
  sampling_stage previous data n cap seed = inr st →
  (∀ c, c ∈ top_categories data n →
        Z.of_nat (length (images_containing data c)) ≤ cap) →
  ∀ i, i ∈ sampled_image_ids st ↔
       ∃ img c, img ∈ images data ∧ img_id img = i
                ∧ c ∈ top_categories data n ∧ contains_category data c img.
Proof.
  intros Hst Hcap i. split; [by eapply sampled_image_ids_origin|].
  intros (img & c & Himg & <- & Hc & Hcc).
  apply sampling_stage_inr in Hst as (Htop & Hgood & ->).
  rewrite <- Htop in Hc. apply list_elem_of_fmap in Hc as ([c' sampled] & -> & Hd).
  cbn in Hcc, Hcap. rewrite Forall_forall in Hgood.
  destruct (Hgood _ Hd) as (_ & _ & Hall). cbn in Hall.
  assert (Hc : c' ∈ top_categories data n).
  { rewrite <- Htop. apply list_elem_of_fmap. by exists (c', sampled). }
  rewrite available_images_spec, decide_True in Hall by done.
  specialize (Hall (Hcap _ Hc)).
  apply elem_of_list_to_set, list_elem_of_fmap. exists img. split; [done|].
  apply list_elem_of_join. exists sampled. split.
  - rewrite Hall. by apply list_elem_of_filter.
  - apply list_elem_of_fmap. by exists (c', sampled).
Qed.

(** C7. Once annotations.json is written the copy loop runs to its end: it
    copies the selected images whose file exists, in order, and counts the
    others as missing, one by one, without copying them; what the run
    returns or raises does not depend on which files exist; and the
    selected images whose file is missing are in the image list that was
    written before the first copy. *)
Theorem missing_files_are_skipped_and_counted
    previous data src_files n cap seed d :
  let r := create_focused_sample_no_cat90 previous data src_files n cap seed in
  json_output r = Some d →
  ∃ cs,
    copy_state r = Some cs
    ∧ (∃ rest, effects r = WriteJson d :: (copy_events cs ++ rest))
    ∧ copy_events cs
      = (λ img, CopyFile (file_name img)) <$> filter (present src_files) (out_images d)
    ∧ copied cs = length (filter (present src_files) (out_images d))
    ∧ missing cs = length (filter (λ img, ¬ present src_files img) (out_images d))
    ∧ (∀ img, img ∈ out_images d → ¬ present src_files img →
         (0 < missing cs)%nat
         ∧ (CopyFile (file_name img) ∉ copy_events cs)
         ∧ ∀ st, copy_step src_files st img
                 = mkCopyState (copied st) (missing st + 1) (copy_events st))
    ∧ (∀ other_files,
         let r' := create_focused_sample_no_cat90 previous data other_files n cap seed in
         json_output r' = Some d ∧ outcome r' = outcome r).
Proof.
  cbv zeta. intros Hd.
  destruct (json_output_inv _ _ _ _ _ _ _ Hd) as (st & Hst & Heq).
  pose proof (run_cases previous data src_files n cap seed) as Hr.
  cbv zeta in Hr. rewrite Hst, <- Heq in Hr.
  destruct Hr as (Hcs & _ & Hnil & Hcons).
  assert (Himgs : sampled_images (sampled_image_ids st) (images data) = out_images d)
    by (by rewrite Heq).
  rewrite Himgs in *.
  destruct (copy_images_spec src_files (out_images d)) as (Hcopied & Hmissing & Hev).
  exists (copy_images src_files (out_images d)). split_and!; [done| |done..| |].
  - destruct (decide (out_images d = [])) as [He|Hne].
    + destruct (Hnil He) as [-> _]. exists []. by rewrite app_nil_r.
    + destruct (Hcons Hne) as (report & -> & _). eauto.
  - intros img Himg Habsent. split_and!.
    + rewrite Hmissing.
      assert (Hf : img ∈ filter (λ img, ¬ present src_files img) (out_images d))
        by (by apply list_elem_of_filter).
      apply list_elem_of_lookup_1 in Hf as [k Hk]. apply lookup_lt_Some in Hk. lia.
    + rewrite Hev. intros (img' & [= Hname] & [Hp _]%list_elem_of_filter)%list_elem_of_fmap.
      apply Habsent. unfold present in *. by rewrite Hname.
    + intros st0. unfold copy_step. by rewrite decide_False.
  - intros other_files.
    pose proof (run_cases previous data other_files n cap seed) as Hr'.
    cbv zeta in Hr'. rewrite Hst, Himgs, <- Heq in Hr'.
    destruct Hr' as (_ & Hj' & Hnil' & Hcons'). split; [done|].
    destruct (decide (out_images d = [])) as [He|Hne].
    + destruct (Hnil He) as [_ ->]. by destruct (Hnil' He) as [_ ->].
    + destruct (Hcons Hne) as (? & _ & ->). by destruct (Hcons' Hne) as (? & _ & ->).
Qed.

(** C9. A run whose sample is empty writes annotations.json, copies
    nothing, and then raises ZeroDivisionError, so that no report is
    written; this is what happens whenever there is no top category, for
    instance when every annotation has category 90.  A run returns only
    with a sample that is not empty, and with such a sample it does
    return, after writing the report. *)
Theorem empty_sample_raises_zero_division previous data src_files n cap seed :
  let r := create_focused_sample_no_cat90 previous data src_files n cap seed in
  (∀ d, json_output r = Some d → out_images d = [] →
        outcome r = inl ZeroDivisionError ∧ effects r = [WriteJson d])
  ∧ (top_categories data n = [] →
       ∃ d, json_output r = Some d ∧ out_images d = []
            ∧ outcome r = inl ZeroDivisionError)
  ∧ (∀ d top, outcome r = inr (d, top) → out_images d ≠ [])
  ∧ (∀ d, json_output r = Some d → out_images d ≠ [] →
        outcome r = inr (d, top_categories data n)
        ∧ ∃ report, last (effects r) = Some (WriteCategoryInfo report)).
Proof.
  cbv zeta.
  pose proof (run_cases previous data src_files n cap seed) as Hr. cbv zeta in Hr.
  split_and!.
  - intros d Hd Hempty.
    destruct (json_output_inv _ _ _ _ _ _ _ Hd) as (st & Hst & Heq).
    rewrite Hst, <- Heq in Hr. destruct Hr as (_ & _ & Hnil & _).
    assert (Himgs : sampled_images (sampled_image_ids st) (images data) = [])
      by (by rewrite <- Hempty, Heq).
    destruct (Hnil Himgs) as [-> ->]. by rewrite Himgs.
  - intros Htop.
    destruct (sampling_stage_is_inr previous data n cap seed) as [st Hst]; [by right|].
    rewrite Hst in Hr. destruct Hr as (_ & Hj & Hnil & _).
    assert (Hids : sampled_image_ids st = ∅).
    { apply sampling_stage_inr in Hst as (Hd & _ & ->).
      rewrite Htop in Hd. apply fmap_nil_inv in Hd. by rewrite Hd. }
    assert (Himgs : sampled_images (sampled_image_ids st) (images data) = []).
    { rewrite Hids. apply sampled_images_empty. }
    eexists. split; [exact Hj|]. split; [done|]. by destruct (Hnil Himgs).
  - intros d top Hout.
    destruct (sampling_stage previous data n cap seed) as [e|st].
    + rewrite Hr in Hout. done.
    + destruct Hr as (_ & _ & Hnil & Hcons).
      destruct (decide (sampled_images (sampled_image_ids st) (images data) = []))
        as [He|Hne].
      * destruct (Hnil He) as [_ Ho]. congruence.
      * destruct (Hcons Hne) as (? & _ & Ho). rewrite Ho in Hout.
        injection Hout as <- <-. done.
  - intros d Hd Hne.
    destruct (json_output_inv _ _ _ _ _ _ _ Hd) as (st & Hst & Heq).
    rewrite Hst, <- Heq in Hr. destruct Hr as (_ & _ & _ & Hcons).
    destruct Hcons as (report & -> & ->); [by rewrite Heq in Hne|].
    split; [done|]. exists report. apply last_snoc.
Qed.

End Quota.

(** ** The three-image scenario *)

Lemma scenario_top : top_categories scenario 2 = [1; 2].
Proof. reflexivity. Qed.

(** Case analysis on membership in a list that is written out. *)
Ltac list_cases H :=
  repeat (apply elem_of_cons in H as [?|H]);
  [..|by apply elem_of_nil in H]; simplify_eq.

Lemma scenario_selected_ids `{RandomGen} `{SetOrder} previous seed st :
  sampling_stage previous scenario 2 10 seed = inr st →
  1 ∈ sampled_image_ids st ∧ (2 ∉ sampled_image_ids st) ∧ 3 ∈ sampled_image_ids st.
Proof.
  intros Hst.
  assert (Hall := sampled_image_ids_all _ _ _ _ _ _ Hst).
  rewrite scenario_top in Hall.
  assert (Hcap : ∀ c, c ∈ [1; 2] →
            Z.of_nat (length (images_containing scenario c)) ≤ 10).
  { intros c Hc. list_cases Hc; by vm_compute. }
  specialize (Hall Hcap). split_and!.
  - apply Hall. exists image_A, 1. split_and!; [left|done|left|].
    unfold contains_category. apply Exists_cons_hd. done.
  - intros (img & c & Himg & Hid & Hc & Hcc)%Hall.
    unfold contains_category in Hcc.
    apply Exists_exists in Hcc as (ann & Hann & Hai & Hcat).
    cbn in Himg, Hann.
    list_cases Himg; try done.
    list_cases Hann; try done.
    cbn in Hc. list_cases Hc.
  - apply Hall. exists image_C, 1. split_and!; [right; right; left|done|left|].
    unfold contains_category. do 2 apply Exists_cons_tl. apply Exists_cons_hd. done.
Qed.

Lemma scenario_filter (ids : gset Z) :
  1 ∈ ids → 2 ∉ ids → 3 ∈ ids →
  sampled_images ids (images scenario) = [image_A; image_C]
  ∧ sampled_annotations ids (annotations scenario)
    = [mkAnnotation 1 1 []; mkAnnotation 3 1 []; mkAnnotation 3 2 []].
Proof.
  intros H1 H2 H3. split.
  - cbn [sampled_images scenario images image_A image_B image_C img_id].
    by repeat first [rewrite decide_True by done | rewrite decide_False by done].
  - cbn [sampled_annotations scenario annotations image_id category_id].
    unfold EXCLUDED.
    by repeat first [rewrite decide_True by done | rewrite decide_False by done].
Qed.

(** C8. Three images, A with category 1, B with only category 90, C with
    categories 1 and 2; N = 2 and a cap of 10.  Whatever the generator,
    the seed and the files on disk, the run returns; the images written
    are A and C; the annotations written are the three of A and C, none
    of image B and none of category 90; the category list is the one of
    the input. *)
Theorem scenario_output (gen : RandomGen) (order : SetOrder)
    (previous : rng_state) (src_files : gset string) (seed : Z) :
  let r := create_focused_sample_no_cat90 previous scenario src_files 2 10 seed in
  ∃ d,
    json_output r = Some d
    ∧ outcome r = inr (d, [1; 2])
    ∧ out_images d = [image_A; image_C]
    ∧ out_annotations d
      = [mkAnnotation 1 1 []; mkAnnotation 3 1 []; mkAnnotation 3 2 []]
    ∧ Forall (λ ann, image_id ann ≠ img_id image_B ∧ category_id ann ≠ EXCLUDED)
        (out_annotations d)
    ∧ out_categories d = categories scenario.
Proof.
  cbv zeta.
  destruct (sampling_stage_is_inr previous scenario 2 10 seed) as [st Hst];
    [left; lia|].
  destruct (scenario_selected_ids _ _ _ Hst) as (H1 & H2 & H3).
  pose proof (run_cases previous scenario src_files 2 10 seed) as Hr.
  cbv zeta in Hr. rewrite Hst in Hr.
  destruct (scenario_filter _ H1 H2 H3) as [Himgs Hanns].
  rewrite Himgs, Hanns in Hr. destruct Hr as (_ & Hj & _ & Hcons).
  destruct Hcons as (report & _ & Hout); [done|].
  eexists. split; [exact Hj|]. rewrite scenario_top in Hout.
  split_and!; [done..| |done].
  cbn [out_annotations make_sampled_data]. repeat constructor; done.
Qed.

(** ** The properties at concrete inputs *)

Example crowded_draws :
  draws crowded_state
  = [(7, [mkImage 10 "p.jpg" []; mkImage 11 "q.jpg" []; mkImage 12 "r.jpg" []]);
     (5, [mkImage 14 "t.jpg" []])].
Proof. reflexivity. Qed.

(** In the three-image scenario with only A.jpg on disk, one file is
    copied and one is counted as missing. *)
Example run_scenario_copy :
  (λ cs, (copied cs, missing cs, copy_events cs)) <$> copy_state run_scenario
  = Some (1%nat, 1%nat, [CopyFile "A.jpg"]).
Proof. vm_compute. reflexivity. Qed.

(** Iterating the sets in reverse order, from another generator state,
    gives the same run. *)
Example reverse_order_same_run :
  @create_focused_sample_no_cat90 rotate_gen reverse_order 7 crowded
    {["p.jpg"; "q.jpg"; "s.jpg"]} 15 3 42 = run_crowded.
Proof. vm_compute. reflexivity. Qed.

(** A negative cap makes the first [random.sample] raise. *)
Example negative_cap_raises :
  outcome (@create_focused_sample_no_cat90 rotate_gen elements_order 0 crowded
             {["p.jpg"]} 15 (-1) 42) = inl ValueError.
Proof. vm_compute. reflexivity. Qed.

(** Another seed selects other images. *)
Example other_seed_other_sample :
  selected_ids (@sampling_stage rotate_gen elements_order 0 crowded 15 3 42)
  ≠ selected_ids (@sampling_stage rotate_gen elements_order 0 crowded 15 3 43).
Proof. vm_compute. intros [=]. Qed.

Lemma output_has_no_excluded_category_witness :
  Forall (λ ann, category_id ann ≠ EXCLUDED) (out_annotations out_crowded).
Proof.
  apply (@output_has_no_excluded_category rotate_gen elements_order
           0 crowded {["p.jpg"; "q.jpg"; "s.jpg"]} 15 3 42 out_crowded).
  vm_compute. reflexivity.
Defined.

Lemma output_annotations_refer_to_output_images_witness :
  ∃ img, img ∈ out_images out_crowded ∧ img_id img = 14.
Proof.
  apply (@output_annotations_refer_to_output_images rotate_gen elements_order
           0 crowded {["p.jpg"; "q.jpg"; "s.jpg"]} 15 3 42 out_crowded
           ltac:(vm_compute; reflexivity) (mkAnnotation 14 5 [])).
  cbn. do 4 right. left.
Defined.

Lemma output_categories_unchanged_witness :
  out_categories out_crowded = categories crowded.
Proof.
  apply (@output_categories_unchanged rotate_gen elements_order
           0 crowded {["p.jpg"; "q.jpg"; "s.jpg"]} 15 3 42 out_crowded).
  vm_compute. reflexivity.
Defined.

Lemma output_keeps_input_order_witness :
  ∃ i' j', (i' < j')%nat
    ∧ images crowded !! i' = Some (mkImage 12 "r.jpg" [])
    ∧ images crowded !! j' = Some (mkImage 14 "t.jpg" []).
Proof.
  destruct (@output_keeps_input_order rotate_gen elements_order
              0 crowded {["p.jpg"; "q.jpg"; "s.jpg"]} 15 3 42 out_crowded
              ltac:(vm_compute; reflexivity)) as (_ & _ & Himgs & _).
  apply (Himgs 2%nat 3%nat); [lia|reflexivity|reflexivity].
Defined.

Lemma quota_is_min_of_cap_and_pool_witness :
  (∃ st, @sampling_stage rotate_gen elements_order 0 crowded 15 3 42 = inr st)
  ∧ (draws crowded_state).*1 = top_categories crowded 15
  ∧ Forall (λ d,
       let pool := eligible_pool crowded 15 d.1 in
       Z.of_nat (length d.2) = Z.min 3 (Z.of_nat (length pool))
       ∧ Z.of_nat (length d.2) ≤ 3
       ∧ (length d.2 ≤ length pool)%nat
       ∧ (3 < Z.of_nat (length pool) → Z.of_nat (length d.2) = 3))
     (draws crowded_state).
Proof.
  destruct (@quota_is_min_of_cap_and_pool rotate_gen elements_order 0 crowded 15 3 42)
    as [Hruns Hdraws].
  split.
  - apply Hruns. lia.
  - apply (Hdraws crowded_state). reflexivity.
Defined.

Lemma top_categories_are_most_frequent_witness :
  (annotation_count crowded 5 ≤ annotation_count crowded 7)%nat
  ∧ 7 ≠ EXCLUDED.
Proof.
  destruct (top_categories_are_most_frequent crowded 15)
    as (_ & _ & Hin & Hsorted & _).
  split.
  - apply (Hsorted 0%nat 1%nat 7 5); [lia|reflexivity|reflexivity].
  - apply (Hin 7). vm_compute. left.
Defined.

Lemma missing_files_are_skipped_and_counted_witness :
  ∃ cs,
    copy_state run_crowded = Some cs
    ∧ (∃ rest, effects run_crowded = WriteJson out_crowded :: (copy_events cs ++ rest))
    ∧ copy_events cs
      = (λ img, CopyFile (file_name img))
          <$> filter (present {["p.jpg"; "q.jpg"; "s.jpg"]}) (out_images out_crowded)
    ∧ copied cs
      = length (filter (present {["p.jpg"; "q.jpg"; "s.jpg"]}) (out_images out_crowded))
    ∧ missing cs
      = length (filter (λ img, ¬ present {["p.jpg"; "q.jpg"; "s.jpg"]} img)
                  (out_images out_crowded))
    ∧ (∀ img, img ∈ out_images out_crowded →
         ¬ present {["p.jpg"; "q.jpg"; "s.jpg"]} img →
         (0 < missing cs)%nat
         ∧ (CopyFile (file_name img) ∉ copy_events cs)
         ∧ ∀ st, copy_step {["p.jpg"; "q.jpg"; "s.jpg"]} st img
                 = mkCopyState (copied st) (missing st + 1) (copy_events st))
    ∧ (∀ other_files,
         let r' := @create_focused_sample_no_cat90 rotate_gen elements_order
                     0 crowded other_files 15 3 42 in
         json_output r' = Some out_crowded ∧ outcome r' = outcome run_crowded).
Proof.
  apply (@missing_files_are_skipped_and_counted rotate_gen elements_order
           0 crowded {["p.jpg"; "q.jpg"; "s.jpg"]} 15 3 42 out_crowded).
  vm_compute. reflexivity.
Defined.

Lemma empty_sample_raises_zero_division_witness :
  ∃ d,
    json_output (@create_focused_sample_no_cat90 rotate_gen elements_order
                   0 only_excluded ∅ 15 150 42) = Some d
    ∧ out_images d = []
    ∧ outcome (@create_focused_sample_no_cat90 rotate_gen elements_order
                 0 only_excluded ∅ 15 150 42) = inl ZeroDivisionError.
Proof.
  destruct (@empty_sample_raises_zero_division rotate_gen elements_order
              0 only_excluded ∅ 15 150 42) as (_ & Hempty & _).
  apply Hempty. reflexivity.
Defined.

(** * Further properties *)

(** ** Counting *)

Lemma total_incr k c : Counter.total (Counter.incr k c) = S (Counter.total c).
Proof.
  unfold Counter.total. induction c as [|[k0 m] c IH]; [done|].
  cbn [Counter.incr]. destruct (decide (k0 = k)); cbn [foldr snd]; [done|].
  rewrite IH. lia.
Qed.

Lemma total_of_list xs : Counter.total (Counter.of_list xs) = length xs.
Proof.
  unfold Counter.of_list.
  assert (Hgen : ∀ c, Counter.total (fold_left (λ c k, Counter.incr k c) xs c)
                      = (Counter.total c + length xs)%nat).
  { induction xs as [|x xs IH]; intros c; cbn [fold_left length]; [lia|].
    rewrite IH, total_incr. lia. }
  by rewrite Hgen.
Qed.

Lemma other_categories_incr top k c :
  other_categories top (Counter.incr k c)
  = (other_categories top c
     + if decide ((k ∉ top) ∧ k ≠ EXCLUDED) then 1 else 0)%nat.
Proof.
  induction c as [|[k0 m] c IH].
  - cbn [Counter.incr other_categories].
    destruct (decide (k ∉ top)), (decide (k ≠ EXCLUDED)).
    + rewrite decide_True by done. lia.
    + rewrite decide_False by tauto. lia.
    + rewrite decide_False by tauto. lia.
    + rewrite decide_False by tauto. lia.
  - cbn [Counter.incr]. destruct (decide (k0 = k)) as [->|Hne].
    + cbn [other_categories].
      destruct (decide (k ∉ top)), (decide (k ≠ EXCLUDED)).
      * rewrite decide_True by done. lia.
      * rewrite decide_False by tauto. lia.
      * rewrite decide_False by tauto. lia.
      * rewrite decide_False by tauto. lia.
    + cbn [other_categories]. rewrite IH.
      destruct (decide (k0 ∉ top)), (decide (k0 ≠ EXCLUDED)); lia.
Qed.

Lemma other_categories_of_list top xs :
  other_categories top (Counter.of_list xs)
  = length (filter (λ k, (k ∉ top) ∧ k ≠ EXCLUDED) xs).
Proof.
  unfold Counter.of_list.
  assert (Hgen : ∀ c, other_categories top (fold_left (λ c k, Counter.incr k c) xs c)
                      = (other_categories top c
                         + length (filter (λ k, (k ∉ top) ∧ k ≠ EXCLUDED) xs))%nat).
  { induction xs as [|x xs IH]; intros c; cbn [fold_left].
    - rewrite filter_nil. cbn. lia.
    - rewrite IH, other_categories_incr, filter_cons.
      destruct (decide ((x ∉ top) ∧ x ≠ EXCLUDED)); cbn [length]; lia. }
  by rewrite Hgen.
Qed.

Lemma length_filter_fmap {A B : Type} (f : A → B) (P : B → Prop) (Q : A → Prop)
    `{∀ y, Decision (P y)} `{∀ x, Decision (Q x)} (l : list A) :
  (∀ x, Q x ↔ P (f x)) →
  length (filter P (f <$> l)) = length (filter Q l).
Proof.
  intros Hiff. induction l as [|x l IH]; [done|].
  rewrite fmap_cons, !filter_cons. specialize (Hiff x).
  destruct (decide (P (f x))), (decide (Q x)); cbn [length]; tauto || lia.
Qed.

Lemma cat_90_count_filter anns :
  cat_90_count anns = length (filter (λ ann, category_id ann = EXCLUDED) anns).
Proof.
  induction anns as [|ann anns IH]; [done|].
  cbn [cat_90_count]. rewrite filter_cons.
  destruct (decide (category_id ann = EXCLUDED)); cbn [length]; lia.
Qed.

Lemma filter_ext_Forall {A : Type} (P Q R : A → Prop)
    `{∀ x, Decision (P x)} `{∀ x, Decision (Q x)} (l : list A) :
  Forall R l → (∀ x, R x → (P x ↔ Q x)) → filter P l = filter Q l.
Proof.
  intros Hall Hiff. induction Hall as [|x l Hx _ IH]; [done|].
  rewrite !filter_cons, IH. specialize (Hiff x Hx).
  destruct (decide (P x)), (decide (Q x)); tauto || done.
Qed.

Lemma length_filter_complement {A : Type} (P : A → Prop)
    `{∀ x, Decision (P x)} (l : list A) :
  (length (filter P l) + length (filter (λ x, ¬ P x) l))%nat = length l.
Proof. by rewrite <- length_app, filter_app_complement. Qed.

(** X1. The two numbers printed after loading add up: the annotations of
    category 90 that are set aside and the annotations that are counted
    are together all annotations of the input. *)
Theorem excluded_and_counted_partition (data : Dataset) :
  (cat_90_count (annotations data) + Counter.total (category_counts data))%nat
    = length (annotations data)
  ∧ cat_90_count (annotations data) = annotation_count data EXCLUDED
  ∧ Counter.total (category_counts data)
    = length (filter (λ ann, category_id ann ≠ EXCLUDED) (annotations data)).
Proof.
  assert (Htotal : Counter.total (category_counts data)
            = length (filter (λ ann, category_id ann ≠ EXCLUDED) (annotations data))).
  { unfold category_counts. rewrite total_of_list, counted_ids_filter.
    by apply length_filter_fmap. }
  split_and!; [|apply cat_90_count_filter|done].
  rewrite Htotal, cat_90_count_filter.
  apply (length_filter_complement (λ ann, category_id ann = EXCLUDED)).
Qed.

Section OutputCounts.
Context `{RandomGen} `{SetOrder}.

(** X2. The per-category counts of the sample agree with the annotations
    that are written: they add up to the number of written annotations,
    the count of a category is the number of written annotations of it,
    category 90 counts zero, and the figure printed as "other specific
    categories" is the number of written annotations whose category is
    not a top category (its test against 90 never decides anything). *)
Theorem sampled_counts_match_output previous data src_files n cap seed d :
  json_output (create_focused_sample_no_cat90 previous data src_files n cap seed)
    = Some d →
  let counts := Counter.of_list (category_id <$> out_annotations d) in
  let top := top_categories data n in
  Counter.total counts = length (out_annotations d)
  ∧ (∀ c, Counter.get counts c
          = length (filter (λ ann, category_id ann = c) (out_annotations d)))
  ∧ Counter.get counts EXCLUDED = 0%nat
  ∧ other_categories top counts
    = length (filter (λ ann, category_id ann ∉ top) (out_annotations d))
  ∧ (other_categories top counts
     + length (filter (λ ann, category_id ann ∈ top) (out_annotations d)))%nat
    = length (out_annotations d).
Proof.
  intros (st & _ & ->)%json_output_inv. cbv zeta.
  cbn [out_annotations make_sampled_data].
  set (anns := sampled_annotations (sampled_image_ids st) (annotations data)).
  assert (Hno : Forall (λ ann, category_id ann ≠ EXCLUDED) anns).
  { unfold anns. rewrite sampled_annotations_filter. apply Forall_forall.
    by intros ann [[_ ?] _]%list_elem_of_filter. }
  assert (Hget : ∀ c, Counter.get (Counter.of_list (category_id <$> anns)) c
            = length (filter (λ ann, category_id ann = c) anns)).
  { intros c. rewrite CounterFacts.get_of_list. unfold Counter.occ.
    by apply length_filter_fmap. }
  assert (Hother : other_categories (top_categories data n)
                     (Counter.of_list (category_id <$> anns))
            = length (filter (λ ann, category_id ann ∉ top_categories data n) anns)).
  { rewrite other_categories_of_list.
    rewrite (length_filter_fmap category_id _
               (λ ann, (category_id ann ∉ top_categories data n)
                       ∧ category_id ann ≠ EXCLUDED)) by done.
    f_equal. apply (filter_ext_Forall _ _ _ _ Hno). tauto. }
  split_and!.
  - by rewrite total_of_list, length_fmap.
  - exact Hget.
  - rewrite Hget.
    rewrite (filter_ext_Forall _ (λ _, False) _ _ Hno) by tauto.
    clear. induction anns as [|a l IH]; [done|].
    by rewrite filter_cons, decide_False by tauto.
  - exact Hother.
  - rewrite Hother, Nat.add_comm.
    apply (length_filter_complement (λ ann, category_id ann ∈ top_categories data n)).
Qed.

End OutputCounts.

(** ** Grouping *)

Lemma top_categories_not_excluded data n c :
  c ∈ top_categories data n → c ≠ EXCLUDED.
Proof.
  intros (m & Hin)%top_categories_item. apply subseteq_take in Hin.
  rewrite CounterFacts.sort_desc_perm in Hin.
  by destruct (category_counts_item _ _ _ Hin).
Qed.

Lemma image_categories_fold_nonempty top anns m :
  (∀ i s, m !! i = Some s → s ≠ ∅) →
  ∀ i s, fold_left (image_categories_step top) anns m !! i = Some s → s ≠ ∅.
Proof.
  revert m. induction anns as [|ann anns IH]; intros m Hm; [done|].
  cbn [fold_left]. apply IH. intros i s. unfold image_categories_step.
  destruct (decide (category_id ann ∈ top)); [|apply Hm].
  destruct (decide (image_id ann = i)) as [<-|Hne].
  - rewrite lookup_insert_eq. intros [= <-]. set_solver.
  - rewrite lookup_insert_ne by done. apply Hm.
Qed.

(** X3. In [image_categories] every image id that is a key has a set that
    is not empty and holds exactly the top categories of the annotations
    of that image; an id is a key exactly when such an annotation exists.
    So the length test of the eligibility filter never fails for a key:
    an image is eligible exactly when its id is a key. *)
Theorem image_categories_keys_nonempty (top : list Z) (anns : list Annotation) :
  let ic := image_categories top anns in
  (∀ i s, ic !! i = Some s →
     s ≠ ∅
     ∧ ∀ c, c ∈ s ↔ c ∈ top ∧ ∃ ann, ann ∈ anns ∧ image_id ann = i ∧ category_id ann = c)
  ∧ (∀ i, is_Some (ic !! i) ↔
          ∃ ann, ann ∈ anns ∧ image_id ann = i ∧ category_id ann ∈ top)
  ∧ (∀ img, is_eligible ic img = true ↔ is_Some (ic !! img_id img)).
Proof.
  cbv zeta.
  assert (Hne : ∀ i s, image_categories top anns !! i = Some s → s ≠ ∅).
  { apply image_categories_fold_nonempty. intros i s. by rewrite lookup_empty. }
  assert (Hmem : ∀ i s, image_categories top anns !! i = Some s →
            ∀ c, c ∈ s ↔ c ∈ top
                 ∧ ∃ ann, ann ∈ anns ∧ image_id ann = i ∧ category_id ann = c).
  { intros i s Hs c. rewrite <- image_categories_spec, Hs. done. }
  split_and!.
  - intros i s Hs. split; [by eapply Hne|by apply Hmem].
  - intros i. split.
    + intros [s Hs]. destruct (set_choose_L s (Hne _ _ Hs)) as [c Hc].
      apply (Hmem _ _ Hs) in Hc as (Htop & ann & ? & ? & <-). by exists ann.
    + intros (ann & Hann & <- & Htop).
      destruct (image_categories top anns !! image_id ann) as [s|] eqn:E; [eauto|].
      exfalso.
      assert (Hc : category_id ann
                   ∈ default ∅ (image_categories top anns !! image_id ann)).
      { apply image_categories_spec. split; [done|]. by exists ann. }
      rewrite E in Hc. by apply elem_of_empty in Hc.
  - intros img. unfold is_eligible.
    destruct (image_categories top anns !! img_id img) as [s|] eqn:E.
    + split; [eauto|]. intros _. apply bool_decide_eq_true.
      assert (size s ≠ 0)%nat; [|lia].
      intros Hz%size_empty_inv. apply (Hne _ _ E). by apply leibniz_equiv.
    + split; [done|]. by intros [? ?].
Qed.

Lemma is_eligible_has_top_category data top img :
  is_eligible (image_categories top (annotations data)) img = true
  ↔ has_top_category data top img.
Proof.
  unfold has_top_category. rewrite Exists_exists. split.
  - unfold is_eligible.
    destruct (image_categories top (annotations data) !! img_id img) as [s|] eqn:E;
      [|done].
    intros Hs%bool_decide_eq_true.
    destruct (size_pos_elem_of s Hs) as [c Hc].
    assert (Hc' : c ∈ default ∅ (image_categories top (annotations data) !! img_id img))
      by (by rewrite E).
    apply image_categories_contains in Hc' as [? ?]. by exists c.
  - intros (c & Hc & Hcc). apply (is_eligible_of_member _ _ c).
    by apply image_categories_contains.
Qed.

Lemma eligible_images_filter data top :
  eligible_images (image_categories top (annotations data)) (images data)
  = filter (has_top_category data top) (images data).
Proof.
  induction (images data) as [|img imgs IH]; [done|].
  cbn [eligible_images]. rewrite filter_cons, IH.
  pose proof (is_eligible_has_top_category data top img) as Hiff.
  destruct (is_eligible _ img), (decide (has_top_category data top img));
    try done; exfalso; naive_solver.
Qed.

(** X4. The eligible images are the input images that have an annotation
    of a top category, in input order; an image with no annotation, or
    with annotations of category 90 or of unranked categories only, is
    not eligible. *)
Theorem eligible_images_have_top_category (data : Dataset) (n : Z) :
  let top := top_categories data n in
  let eligible := eligible_images (image_categories top (annotations data)) (images data) in
  eligible = filter (has_top_category data top) (images data)
  ∧ eligible `sublist_of` images data
  ∧ (∀ img, img ∈ eligible →
       ∃ ann, ann ∈ annotations data ∧ image_id ann = img_id img
              ∧ category_id ann ∈ top ∧ category_id ann ≠ EXCLUDED)
  ∧ (∀ img, (∀ ann, ann ∈ annotations data → image_id ann = img_id img →
                    category_id ann = EXCLUDED ∨ category_id ann ∉ top) →
            img ∉ eligible).
Proof.
  cbv zeta. rewrite eligible_images_filter.
  assert (Hwhy : ∀ img, has_top_category data (top_categories data n) img →
            ∃ ann, ann ∈ annotations data ∧ image_id ann = img_id img
                   ∧ category_id ann ∈ top_categories data n
                   ∧ category_id ann ≠ EXCLUDED).
  { intros img (c & Hc & Hcc)%Exists_exists.
    apply Exists_exists in Hcc as (ann & Hann & Hid & <-).
    exists ann. split_and!; [done..|].
    by apply (top_categories_not_excluded data n). }
  split_and!; [done|apply sublist_filter| |].
  - intros img [Htop _]%list_elem_of_filter. by apply Hwhy.
  - intros img Hnone [Htop _]%list_elem_of_filter.
    destruct (Hwhy _ Htop) as (ann & Hann & Hid & Hin & Hne).
    destruct (Hnone ann Hann Hid); done.
Qed.

(** ** Draws *)

Lemma omap_submseteq {A B : Type} (f : A → option B) (l k : list A) :
  l ⊆+ k → omap f l ⊆+ omap f k.
Proof.
  induction 1 as [|x l k _ IH|x y l|x l k _ IH|l k m _ IH1 _ IH2];
    cbn [omap list_omap].
  - done.
  - destruct (f x); [by constructor|done].
  - destruct (f x), (f y); try done. apply submseteq_swap.
  - destruct (f x); [by constructor|done].
  - by etrans.
Qed.

Lemma filter_submseteq {A : Type} (P : A → Prop) `{∀ x, Decision (P x)}
    (l k : list A) :
  l ⊆+ k → filter P l ⊆+ filter P k.
Proof.
  induction 1 as [|x l k _ IH|x y l|x l k _ IH|l k m _ IH1 _ IH2].
  - done.
  - rewrite !filter_cons. destruct (decide (P x)); [by constructor|done].
  - rewrite !filter_cons. destruct (decide (P x)), (decide (P y)); try done.
    apply submseteq_swap.
  - rewrite filter_cons. destruct (decide (P x)); [by constructor|done].
  - by etrans.
Qed.

Lemma filter_all {A : Type} (P : A → Prop) `{∀ x, Decision (P x)} (l : list A) :
  (∀ x, x ∈ l → P x) → filter P l = l.
Proof.
  induction l as [|x l IH]; intros Hall; [done|].
  rewrite filter_cons, decide_True by (apply Hall; left).
  rewrite IH; [done|]. intros y Hy. apply Hall. by right.
Qed.

Lemma NoDup_of_submseteq {A : Type} (l k : list A) :
  l ⊆+ k → NoDup k → NoDup l.
Proof.
  intros (k' & Hsub & Hperm)%submseteq_sublist_l Hnd.
  eapply sublist_NoDup; [|exact Hsub]. by rewrite Hperm.
Qed.

Lemma omap_lookup_submseteq {A : Type} (l : list A) (idxs : list nat) :
  NoDup idxs → Forall (λ i, (i < length l)%nat) idxs →
  omap (λ i, l !! i) idxs ⊆+ l.
Proof.
  intros Hnd Hb.
  transitivity (omap (λ i, l !! i) (seq 0 (length l)));
    [|by rewrite omap_lookup_seq].
  apply omap_submseteq.
  apply NoDup_submseteq; [done|]. intros i Hi. apply elem_of_seq.
  rewrite Forall_forall in Hb. specialize (Hb i Hi). lia.
Qed.

Section DrawFacts.
Context `{RandomGen} `{SetOrder}.

(** Sampling is without replacement: no position is taken twice. *)
Lemma random_sample_submseteq {A : Type} g (population : list A) k sampled g' :
  random_sample g population k = inr (sampled, g') → sampled ⊆+ population.
Proof.
  unfold random_sample. case_decide as Hk; [|done]. intros [= <- <-].
  assert (Hle : (Z.to_nat k ≤ length population)%nat) by lia.
  apply omap_lookup_submseteq.
  - by apply sample_indices_NoDup.
  - by apply sample_indices_bound.
Qed.

Lemma sample_loop_submseteq cim cap cats st st' :
  sample_loop cim cap cats st = inr st' →
  Forall (λ d, d.2 ⊆+ available_images cim d.1) (draws st) →
  Forall (λ d, d.2 ⊆+ available_images cim d.1) (draws st').
Proof.
  revert st. induction cats as [|c cats IH]; intros st; cbn [sample_loop].
  - by intros [= <-].
  - unfold sample_category.
    destruct (random_sample _ _ _) as [e|[sampled g']] eqn:E; [done|].
    intros Hloop Hall. apply (IH _ Hloop). cbn [draws].
    apply Forall_app. split; [done|]. constructor; [|done].
    cbn. by eapply random_sample_submseteq.
Qed.

Lemma sampling_stage_submseteq previous data n cap seed st :
  sampling_stage previous data n cap seed = inr st →
  Forall (λ d, d.2 ⊆+ images_containing data d.1) (draws st).
Proof.
  intros Hst. pose proof (sampling_stage_inr _ _ _ _ _ _ Hst) as (Htop & _ & _).
  unfold sampling_stage in Hst.
  apply sample_loop_submseteq in Hst; [|by constructor].
  rewrite Forall_forall in Hst. apply Forall_forall. intros [c sampled] Hd.
  specialize (Hst _ Hd). cbn in Hst |- *.
  rewrite available_images_spec, decide_True in Hst; [done|].
  rewrite <- Htop. apply list_elem_of_fmap. by exists (c, sampled).
Qed.

(** X5. Each quota is drawn without replacement from its own pool: a draw
    is a sub-multiset of the eligible images that contain the category, so
    every image it holds has an annotation of that category, and when the
    image records of the input are pairwise different no image occurs
    twice in a draw. *)
Theorem draws_are_without_replacement previous data n cap seed st :
  sampling_stage previous data n cap seed = inr st →
  Forall (λ d,
      d.2 ⊆+ eligible_pool data n d.1
      ∧ (∀ img, img ∈ d.2 → img ∈ images data ∧ contains_category data d.1 img)
      ∧ (NoDup (images data) → NoDup d.2))
    (draws st).
Proof.
  intros Hst. pose proof (sampling_stage_inr _ _ _ _ _ _ Hst) as (Htop & _ & _).
  apply sampling_stage_submseteq in Hst.
  rewrite Forall_forall in Hst. apply Forall_forall. intros [c sampled] Hd.
  specialize (Hst _ Hd). cbn in Hst |- *.
  assert (Hc : c ∈ top_categories data n).
  { rewrite <- Htop. apply list_elem_of_fmap. by exists (c, sampled). }
  rewrite eligible_pool_spec by done. split_and!; [done| |].
  - intros img Himg.
    assert (Hin : img ∈ images_containing data c) by (by eapply elem_of_submseteq).
    apply list_elem_of_filter in Hin. tauto.
  - intros Hnd. eapply NoDup_of_submseteq; [exact Hst|].
    by apply NoDup_filter.
Qed.

(** X6. The pool of a category is built in input order and does not
    depend on the order in which the category sets are iterated: for a
    top category it is the list of input images with an annotation of
    that category, for any other category (category 90 among them) it is
    empty. *)
Theorem pools_follow_input_order (data : Dataset) (n c : Z) :
  let top := top_categories data n in
  let ic := image_categories top (annotations data) in
  let pool := available_images (category_image_map ic (eligible_images ic (images data))) c in
  pool = (if decide (c ∈ top) then images_containing data c else [])
  ∧ pool `sublist_of` images data
  ∧ (c = EXCLUDED → pool = [])
  ∧ (∀ img, img ∈ pool ↔
       img ∈ images data ∧ c ∈ top ∧ contains_category data c img).
Proof.
  cbv zeta. rewrite available_images_spec.
  destruct (decide (c ∈ top_categories data n)) as [Hc|Hc].
  - split_and!; [done|apply sublist_filter| |].
    + intros ->. by apply top_categories_not_excluded in Hc.
    + intros img. unfold images_containing. rewrite list_elem_of_filter. tauto.
  - split_and!; [done|apply sublist_nil_l|done|].
    intros img. rewrite elem_of_nil. tauto.
Qed.

End DrawFacts.

(** ** How a run ends *)

Lemma sampled_annotations_empty anns : sampled_annotations ∅ anns = [].
Proof.
  induction anns as [|ann anns IH]; [done|].
  cbn [sampled_annotations]. rewrite decide_False; [done|]. apply not_elem_of_empty.
Qed.

Lemma top_categories_nonpositive data n : n ≤ 0 → top_categories data n = [].
Proof.
  intros Hn. unfold top_categories, Counter.most_common.
  replace (Z.to_nat n) with 0%nat by lia. done.
Qed.

Lemma join_all_nil {A B : Type} (l : list (A * list B)) :
  Forall (λ d, d.2 = []) l → mjoin (l.*2) = [].
Proof.
  induction 1 as [|[a x] l Hx _ IH]; [done|].
  cbn in Hx. subst x. rewrite fmap_cons. cbn. exact IH.
Qed.

Section Endings.
Context `{RandomGen} `{SetOrder}.

(** The ids that are selected and the ids of the images that are written
    are the same ids. *)
Lemma selected_ids_are_output_ids previous data n cap seed st i :
  sampling_stage previous data n cap seed = inr st →
  i ∈ sampled_image_ids st ↔
  ∃ img, img ∈ sampled_images (sampled_image_ids st) (images data) ∧ img_id img = i.
Proof.
  intros Hst. rewrite sampled_images_filter. split.
  - intros Hi.
    destruct (sampled_image_ids_origin _ _ _ _ _ _ _ Hst Hi) as (img & c & ? & <- & _).
    exists img. split; [|done]. by apply list_elem_of_filter.
  - intros (img & [? _]%list_elem_of_filter & <-). done.
Qed.

Lemma sampling_stage_raises previous data n cap seed e :
  sampling_stage previous data n cap seed = inl e ↔
  e = ValueError ∧ cap < 0 ∧ top_categories data n ≠ [].
Proof.
  split.
  - intros Hst. destruct (decide (0 ≤ cap)) as [Hcap|Hcap].
    { destruct (sampling_stage_is_inr previous data n cap seed) as [st Hst'];
        [by left|congruence]. }
    destruct (top_categories data n) as [|c cats] eqn:Etop.
    { destruct (sampling_stage_is_inr previous data n cap seed) as [st Hst'];
        [by right|congruence]. }
    unfold sampling_stage in Hst. rewrite Etop, sample_loop_negative in Hst by lia.
    injection Hst as <-. split_and!; [done|lia|done].
  - intros (-> & Hcap & Htop). unfold sampling_stage.
    destruct (top_categories data n) as [|c cats]; [done|].
    by apply sample_loop_negative.
Qed.

(** The sample is not empty exactly when some input image has an
    annotation of a top category, provided the cap is positive. *)
Lemma sample_nonempty_iff previous data n cap seed st :
  sampling_stage previous data n cap seed = inr st → 0 < cap →
  sampled_images (sampled_image_ids st) (images data) ≠ [] ↔
  ∃ img, img ∈ images data ∧ has_top_category data (top_categories data n) img.
Proof.
  intros Hst Hcap. split.
  - intros Hne.
    destruct (sampled_images (sampled_image_ids st) (images data)) as [|img l] eqn:E;
      [done|].
    assert (Hin : img ∈ sampled_images (sampled_image_ids st) (images data))
      by (rewrite E; left).
    rewrite sampled_images_filter in Hin. apply list_elem_of_filter in Hin as [Hid _].
    destruct (sampled_image_ids_origin _ _ _ _ _ _ _ Hst Hid)
      as (img' & c & ? & _ & ? & ?).
    exists img'. split; [done|]. apply Exists_exists. by exists c.
  - intros (img & Himg & (c & Hc & Hcc)%Exists_exists).
    pose proof (sampling_stage_inr _ _ _ _ _ _ Hst) as (Htop & Hgood & Hids).
    cbv zeta in Hgood. rewrite <- Htop in Hc.
    apply list_elem_of_fmap in Hc as ([c' sampled] & -> & Hd).
    rewrite Forall_forall in Hgood. destruct (Hgood _ Hd) as (Hlen & Hsub & _).
    cbn in Hlen, Hsub, Hcc.
    assert (Hc : c' ∈ top_categories data n).
    { rewrite <- Htop. apply list_elem_of_fmap. by exists (c', sampled). }
    rewrite available_images_spec, decide_True in Hlen, Hsub by done.
    assert (Hpool : img ∈ images_containing data c') by (by apply list_elem_of_filter).
    destruct sampled as [|img' rest].
    { exfalso. unfold sample_size in Hlen. cbn in Hlen.
      destruct (images_containing data c'); [by apply elem_of_nil in Hpool|].
      cbn in Hlen. lia. }
    assert (Hin' : img' ∈ images_containing data c') by (apply Hsub; left).
    apply list_elem_of_filter in Hin' as [_ Hin'].
    assert (Hid : img_id img' ∈ sampled_image_ids st).
    { rewrite Hids. apply elem_of_list_to_set, list_elem_of_fmap.
      exists img'. split; [done|]. apply list_elem_of_join.
      exists (img' :: rest). split; [left|].
      apply list_elem_of_fmap. by exists (c', img' :: rest). }
    intros Hnil.
    assert (Hout : img' ∈ sampled_images (sampled_image_ids st) (images data)).
    { rewrite sampled_images_filter. by apply list_elem_of_filter. }
    rewrite Hnil in Hout. by apply elem_of_nil in Hout.
Qed.

(** X7. A run raises ValueError exactly when the cap is negative and there
    is at least one top category; it then stops at the first quota, before
    anything is written or copied. *)
Theorem value_error_iff_negative_cap previous data src_files n cap seed :
  let r := create_focused_sample_no_cat90 previous data src_files n cap seed in
  (outcome r = inl ValueError ↔ cap < 0 ∧ top_categories data n ≠ [])
  ∧ (outcome r = inl ValueError →
     effects r = [] ∧ copy_state r = None ∧ json_output r = None).
Proof.
  cbv zeta.
  pose proof (run_cases previous data src_files n cap seed) as Hr. cbv zeta in Hr.
  destruct (sampling_stage previous data n cap seed) as [e|st] eqn:Est.
  - apply sampling_stage_raises in Est as (-> & Hcap & Htop). rewrite Hr. cbn.
    split; [|done]. split; [done|]. done.
  - destruct Hr as (_ & _ & Hnil & Hcons).
    assert (Hno : outcome (create_focused_sample_no_cat90 previous data src_files
                             n cap seed) ≠ inl ValueError).
    { destruct (decide (sampled_images (sampled_image_ids st) (images data) = []))
        as [He|Hne].
      - destruct (Hnil He) as [_ ->]. done.
      - destruct (Hcons Hne) as (? & _ & ->). done. }
    split; [|done]. split; [done|].
    intros [Hcap Htop]. exfalso.
    assert (Hraise : sampling_stage previous data n cap seed = inl ValueError)
      by (by apply sampling_stage_raises).
    congruence.
Qed.

(** X8. With a positive cap a run returns exactly when some input image
    has an annotation of a top category; otherwise it ends in
    ZeroDivisionError.  It never raises ValueError. *)
Theorem run_returns_iff_some_image_qualifies previous data src_files n cap seed :
  0 < cap →
  let r := create_focused_sample_no_cat90 previous data src_files n cap seed in
  let qualifies :=
    ∃ img, img ∈ images data ∧ has_top_category data (top_categories data n) img in
  ((∃ res, outcome r = inr res) ↔ qualifies)
  ∧ (outcome r = inl ZeroDivisionError ↔ ¬ qualifies)
  ∧ outcome r ≠ inl ValueError.
Proof.
  intros Hcap. cbv zeta.
  pose proof (run_cases previous data src_files n cap seed) as Hr. cbv zeta in Hr.
  destruct (sampling_stage_is_inr previous data n cap seed) as [st Hst];
    [left; lia|].
  rewrite Hst in Hr. destruct Hr as (_ & _ & Hnil & Hcons).
  pose proof (sample_nonempty_iff _ _ _ _ _ _ Hst Hcap) as Hiff.
  destruct (decide (sampled_images (sampled_image_ids st) (images data) = []))
    as [He|Hne].
  - destruct (Hnil He) as [_ ->]. split_and!; [|split|done].
    + split; [by intros [? ?]|]. intros Hq%Hiff. done.
    + intros _ Hq%Hiff. done.
    + done.
  - destruct (Hcons Hne) as (? & _ & ->). split_and!; [|split|done].
    + split; [|eauto]. intros _. by apply Hiff.
    + done.
    + intros Hnq. exfalso. apply Hnq. by apply Hiff.
Qed.

(** X9. With a cap of zero, or with no category asked for (N at most
    zero), nothing is selected: the run writes an annotation file with no
    image and no annotation and then raises ZeroDivisionError. *)
Theorem zero_cap_or_no_category_selects_nothing
    previous data src_files n cap seed :
  cap = 0 ∨ n ≤ 0 →
  let r := create_focused_sample_no_cat90 previous data src_files n cap seed in
  ∃ d,
    json_output r = Some d
    ∧ out_images d = [] ∧ out_annotations d = []
    ∧ effects r = [WriteJson d]
    ∧ outcome r = inl ZeroDivisionError.
Proof.
  intros Hdeg. cbv zeta.
  pose proof (run_cases previous data src_files n cap seed) as Hr. cbv zeta in Hr.
  destruct (sampling_stage_is_inr previous data n cap seed) as [st Hst].
  { destruct Hdeg as [->|Hn]; [by left|right; by apply top_categories_nonpositive]. }
  rewrite Hst in Hr. destruct Hr as (_ & Hj & Hnil & _).
  assert (Hids : sampled_image_ids st = ∅).
  { apply sampling_stage_inr in Hst as (Htop & Hgood & ->).
    rewrite join_all_nil; [done|].
    destruct Hdeg as [->|Hn].
    - eapply Forall_impl; [exact Hgood|]. intros [c sampled] (Hlen & _). cbn in *.
      unfold sample_size in Hlen. apply nil_length_inv. lia.
    - rewrite top_categories_nonpositive in Htop by done.
      apply fmap_nil_inv in Htop. rewrite Htop. constructor. }
  rewrite Hids, sampled_images_empty, sampled_annotations_empty in *.
  destruct (Hnil eq_refl) as [-> ->]. eexists. split_and!; done.
Qed.

(** X10. What a run returns is what it wrote: the returned data set is the
    content of annotations.json, the returned list is the category
    ranking, the info and licenses entries are those of the input (an
    empty object and an empty list when absent), and the effects of the
    run are the annotation file, the copies and the report, in this
    order. *)
Theorem returned_data_is_written previous data src_files n cap seed d top :
  let r := create_focused_sample_no_cat90 previous data src_files n cap seed in
  outcome r = inr (d, top) →
  json_output r = Some d
  ∧ top = top_categories data n
  ∧ out_info d = default (JObj []) (info data)
  ∧ out_licenses d = default (JList []) (licenses data)
  ∧ ∃ cs report,
      copy_state r = Some cs
      ∧ effects r = (WriteJson d :: copy_events cs) ++ [WriteCategoryInfo report]
      ∧ length (copy_events cs) = copied cs.
Proof.
  cbv zeta. intros Hout.
  pose proof (run_cases previous data src_files n cap seed) as Hr. cbv zeta in Hr.
  destruct (sampling_stage previous data n cap seed) as [e|st].
  { rewrite Hr in Hout. done. }
  destruct Hr as (Hcs & Hj & Hnil & Hcons).
  destruct (decide (sampled_images (sampled_image_ids st) (images data) = []))
    as [He|Hne].
  { destruct (Hnil He) as [_ Ho]. congruence. }
  destruct (Hcons Hne) as (report & Heff & Ho). rewrite Ho in Hout.
  injection Hout as <- <-. split_and!; [done..|].
  eexists _, report. split_and!; [done..|].
  destruct (copy_images_spec src_files
              (sampled_images (sampled_image_ids st) (images data)))
    as (-> & _ & ->).
  by rewrite length_fmap.
Qed.

End Endings.

(** ** What is selected *)

Lemma contains_category_same_id data c img img' :
  img_id img = img_id img' →
  contains_category data c img → contains_category data c img'.
Proof. unfold contains_category. by intros ->. Qed.

Lemma size_list_to_set_le (l : list Z) :
  (size (list_to_set l : gset Z) ≤ length l)%nat.
Proof.
  induction l as [|x l IH]; [by rewrite list_to_set_nil, size_empty|].
  rewrite list_to_set_cons, size_union_alt, size_singleton. cbn [length].
  assert (size (list_to_set l ∖ {[x]} : gset Z) ≤ size (list_to_set l : gset Z))%nat
    by (apply subseteq_size; set_solver).
  lia.
Qed.

Lemma length_join_bound {A B : Type} (l : list (A * list B)) (k : nat) :
  Forall (λ d, (length d.2 ≤ k)%nat) l →
  (length (mjoin (l.*2)) ≤ length l * k)%nat.
Proof.
  induction 1 as [|[a x] l Hx _ IH]; [done|].
  rewrite fmap_cons. cbn [snd mjoin list_join length] in Hx |- *.
  rewrite length_app. cbn [Nat.mul]. by apply Nat.add_le_mono.
Qed.

Lemma Forall_self {A : Type} (l : list A) : Forall (λ x, x ∈ l) l.
Proof. by apply Forall_forall. Qed.

Section Selection.
Context `{RandomGen} `{SetOrder}.

(** X11. No image is written without an annotation: every image of
    annotations.json is an input image and has, in the same file, at least
    one annotation of a top category. *)
Theorem every_output_image_is_annotated previous data src_files n cap seed d :
  json_output (create_focused_sample_no_cat90 previous data src_files n cap seed)
    = Some d →
  ∀ img, img ∈ out_images d →
    img ∈ images data
    ∧ ∃ ann, ann ∈ out_annotations d
             ∧ image_id ann = img_id img
             ∧ category_id ann ∈ top_categories data n.
Proof.
  intros (st & Hst & ->)%json_output_inv img.
  cbn [out_images out_annotations make_sampled_data].
  rewrite sampled_images_filter, sampled_annotations_filter.
  intros [Hid Himg]%list_elem_of_filter. split; [done|].
  destruct (sampled_image_ids_origin _ _ _ _ _ _ _ Hst Hid)
    as (img' & c & _ & Heq & Hc & Hcc).
  apply Exists_exists in Hcc as (ann & Hann & Hai & <-).
  exists ann. split_and!; [|congruence|done].
  apply list_elem_of_filter. split; [|done]. split.
  - by rewrite Hai, Heq.
  - by eapply top_categories_not_excluded.
Qed.

(** X12. The annotations written are all annotations of the selected
    images except those of category 90: an input annotation is written
    exactly when its category is not 90 and its image is one of the images
    written, whether or not its category is a top category. *)
Theorem output_annotations_are_those_of_output_images
    previous data src_files n cap seed d :
  json_output (create_focused_sample_no_cat90 previous data src_files n cap seed)
    = Some d →
  out_annotations d
  = filter (λ ann, category_id ann ≠ EXCLUDED ∧ refers_to (out_images d) ann)
      (annotations data)
  ∧ ∀ ann, ann ∈ out_annotations d ↔
           ann ∈ annotations data ∧ category_id ann ≠ EXCLUDED
           ∧ ∃ img, img ∈ out_images d ∧ img_id img = image_id ann.
Proof.
  intros (st & Hst & ->)%json_output_inv.
  cbn [out_images out_annotations make_sampled_data].
  assert (Hiff : ∀ ann, image_id ann ∈ sampled_image_ids st ↔
            ∃ img, img ∈ sampled_images (sampled_image_ids st) (images data)
                   ∧ img_id img = image_id ann).
  { intros ann. by eapply selected_ids_are_output_ids. }
  split.
  - rewrite sampled_annotations_filter. apply list_filter_iff. intros ann.
    unfold refers_to. rewrite Exists_exists, Hiff. tauto.
  - intros ann. rewrite sampled_annotations_filter, list_elem_of_filter, Hiff. tauto.
Qed.

(** X13. The sample is bounded by N times the cap: the written images have
    at most (number of top categories) x cap different ids, there are at
    most N top categories, and when the image ids of the input are
    pairwise different at most N x cap images are written. *)
Theorem sample_size_is_bounded previous data src_files n cap seed d :
  json_output (create_focused_sample_no_cat90 previous data src_files n cap seed)
    = Some d →
  (size (list_to_set (img_id <$> out_images d) : gset Z)
     ≤ length (top_categories data n) * Z.to_nat cap)%nat
  ∧ (length (top_categories data n) ≤ Z.to_nat n)%nat
  ∧ (NoDup (img_id <$> images data) →
     (length (out_images d) ≤ Z.to_nat n * Z.to_nat cap)%nat).
Proof.
  intros (st & Hst & ->)%json_output_inv.
  cbn [out_images make_sampled_data].
  assert (Hset : (list_to_set
                    (img_id <$> sampled_images (sampled_image_ids st) (images data))
                  : gset Z) = sampled_image_ids st).
  { apply set_eq. intros i. rewrite elem_of_list_to_set, list_elem_of_fmap.
    rewrite (selected_ids_are_output_ids _ _ _ _ _ _ i Hst). naive_solver. }
  assert (Hlen_top : (length (top_categories data n) ≤ Z.to_nat n)%nat).
  { unfold top_categories, Counter.most_common.
    rewrite length_fmap, length_take. lia. }
  assert (Hsize : (size (sampled_image_ids st)
                   ≤ length (top_categories data n) * Z.to_nat cap)%nat).
  { pose proof (sampling_stage_inr _ _ _ _ _ _ Hst) as (Htop & Hgood & Hids).
    cbv zeta in Hgood. rewrite Hids, <- Htop, length_fmap.
    etrans; [apply size_list_to_set_le|]. rewrite length_fmap.
    apply length_join_bound. eapply Forall_impl; [exact Hgood|].
    intros [c sampled] (Hlen & _). cbn in *. unfold sample_size in Hlen. lia. }
  split_and!; [by rewrite Hset|done|].
  intros Hnd.
  assert (Hnd' : NoDup (img_id <$> sampled_images (sampled_image_ids st) (images data))).
  { eapply sublist_NoDup; [exact Hnd|]. apply fmap_sublist.
    rewrite sampled_images_filter. apply sublist_filter. }
  rewrite <- (length_fmap img_id), <- (size_list_to_set (C := gset Z)) by done.
  rewrite Hset. etrans; [exact Hsize|]. by apply Nat.mul_le_mono_r.
Qed.

(** X14. Every top category gets at least its quota: the written images
    that contain a top category are at least min(cap, size of its pool)
    many.  They can be more, since an image drawn for one category counts
    for every category it contains. *)
Theorem every_top_category_gets_its_quota previous data src_files n cap seed d :
  json_output (create_focused_sample_no_cat90 previous data src_files n cap seed)
    = Some d →
  ∀ c, c ∈ top_categories data n →
    Z.min cap (Z.of_nat (length (images_containing data c)))
    ≤ Z.of_nat (length (filter (contains_category data c) (out_images d))).
Proof.
  intros (st & Hst & ->)%json_output_inv c Hc.
  cbn [out_images make_sampled_data].
  pose proof (sampling_stage_inr _ _ _ _ _ _ Hst) as (Htop & Hgood & Hids).
  pose proof (sampling_stage_submseteq _ _ _ _ _ _ Hst) as Hsub.
  cbv zeta in Hgood. rewrite <- Htop in Hc.
  apply list_elem_of_fmap in Hc as ([c' sampled] & -> & Hd).
  rewrite Forall_forall in Hgood, Hsub.
  destruct (Hgood _ Hd) as (Hlen & _ & _). specialize (Hsub _ Hd).
  cbn in Hlen, Hsub |- *.
  assert (Hc : c' ∈ top_categories data n).
  { rewrite <- Htop. apply list_elem_of_fmap. by exists (c', sampled). }
  rewrite available_images_spec, decide_True in Hlen by done.
  unfold sample_size in Hlen. rewrite <- Hlen. apply inj_le.
  assert (Hsel : filter (λ img, img_id img ∈ sampled_image_ids st) sampled = sampled).
  { apply filter_all. intros img Himg. rewrite Hids.
    apply elem_of_list_to_set, list_elem_of_fmap. exists img. split; [done|].
    apply list_elem_of_join. exists sampled. split; [done|].
    apply list_elem_of_fmap. by exists (c', sampled). }
  rewrite <- Hsel at 1. apply submseteq_length.
  rewrite sampled_images_filter, list_filter_filter.
  unfold images_containing in Hsub.
  apply (filter_submseteq (λ img, img_id img ∈ sampled_image_ids st)) in Hsub.
  rewrite list_filter_filter in Hsub.
  erewrite (list_filter_iff (λ x, contains_category data c' x ∧ _)); [exact Hsub|].
  intros img. cbn. tauto.
Qed.

(** X15. When no pool is larger than the cap the sampling does not decide
    anything: whatever the generator and the seed, the written images are
    exactly the input images that have an annotation of a top category,
    in input order. *)
Theorem large_cap_selects_every_eligible_image
    previous data src_files n cap seed d :
  json_output (create_focused_sample_no_cat90 previous data src_files n cap seed)
    = Some d →
  (∀ c, c ∈ top_categories data n →
        Z.of_nat (length (images_containing data c)) ≤ cap) →
  out_images d = filter (has_top_category data (top_categories data n)) (images data).
Proof.
  intros (st & Hst & ->)%json_output_inv Hcap.
  cbn [out_images make_sampled_data].
  pose proof (sampled_image_ids_all _ _ _ _ _ _ Hst Hcap) as Hall.
  rewrite sampled_images_filter.
  apply (filter_ext_Forall _ _ _ _ (Forall_self (images data))).
  intros img Himg. rewrite Hall. unfold has_top_category. rewrite Exists_exists.
  split.
  - intros (img' & c & _ & Heq & Hc & Hcc). exists c. split; [done|].
    by apply (contains_category_same_id _ _ img').
  - intros (c & Hc & Hcc). by exists img, c.
Qed.

End Selection.

(** ** Copies and report *)

Lemma images_with_cat_filter ic c imgs :
  images_with_cat ic c imgs
  = length (filter (λ img, c ∈ default ∅ (ic !! img_id img)) imgs).
Proof.
  induction imgs as [|img imgs IH]; [done|].
  cbn [images_with_cat]. rewrite filter_cons.
  destruct (decide (c ∈ default ∅ (ic !! img_id img))); cbn [length]; lia.
Qed.

Lemma cat_90_in_sample_filter ids anns :
  cat_90_in_sample ids anns
  = length (filter (λ ann, image_id ann ∈ ids ∧ category_id ann = EXCLUDED) anns).
Proof.
  induction anns as [|ann anns IH]; [done|].
  cbn [cat_90_in_sample]. rewrite filter_cons.
  destruct (decide (image_id ann ∈ ids)), (decide (category_id ann = EXCLUDED)).
  - rewrite decide_True by done. cbn [length]. lia.
  - rewrite decide_False by tauto. done.
  - rewrite decide_False by tauto. done.
  - rewrite decide_False by tauto. done.
Qed.

Lemma report_lines_from_spec i ic counts imgs cats :
  let lines := report_lines_from i ic counts imgs cats in
  line_cat <$> lines = cats
  ∧ line_rank <$> lines = seq i (length cats)
  ∧ Forall (λ line,
        line_cat line ∈ cats
        ∧ line_count line = Counter.get counts (line_cat line)
        ∧ line_images line = images_with_cat ic (line_cat line) imgs)
      lines.
Proof.
  cbv zeta. revert i. induction cats as [|c cats IH]; intros i.
  - split_and!; [done..|constructor].
  - destruct (IH (S i)) as (Hc & Hr & Hall). cbn [report_lines_from].
    rewrite !fmap_cons, Hc, Hr. split_and!; [done..|].
    constructor; [cbn; split_and!; [left|done..]|].
    eapply Forall_impl; [exact Hall|]. intros line (? & ? & ?).
    split_and!; [by right|done..].
Qed.

Section CopiesAndReport.
Context `{RandomGen} `{SetOrder}.

(** X16. The copy loop accounts for every selected image once: copied and
    missing add up to the number of images written to annotations.json; a
    file is copied exactly when it exists and is the file of a selected
    image; and when every file exists nothing is missing. *)
Theorem copy_accounts_for_every_image previous data src_files n cap seed d :
  let r := create_focused_sample_no_cat90 previous data src_files n cap seed in
  json_output r = Some d →
  ∃ cs,
    copy_state r = Some cs
    ∧ (copied cs + missing cs)%nat = length (out_images d)
    ∧ length (copy_events cs) = copied cs
    ∧ (∀ e, e ∈ copy_events cs ↔
            ∃ img, img ∈ out_images d ∧ file_name img ∈ src_files
                   ∧ e = CopyFile (file_name img))
    ∧ ((∀ img, img ∈ out_images d → file_name img ∈ src_files) →
       missing cs = 0%nat ∧ copied cs = length (out_images d)).
Proof.
  cbv zeta. intros Hd.
  destruct (json_output_inv _ _ _ _ _ _ _ Hd) as (st & Hst & Heq).
  pose proof (run_cases previous data src_files n cap seed) as Hr.
  cbv zeta in Hr. rewrite Hst in Hr. destruct Hr as (Hcs & _).
  assert (Himgs : sampled_images (sampled_image_ids st) (images data) = out_images d)
    by (by rewrite Heq).
  rewrite Himgs in Hcs.
  destruct (copy_images_spec src_files (out_images d)) as (Hcopied & Hmissing & Hev).
  pose proof (length_filter_complement (present src_files) (out_images d)) as Hsum.
  exists (copy_images src_files (out_images d)). split_and!; [done| | | |].
  - by rewrite Hcopied, Hmissing.
  - by rewrite Hev, length_fmap, Hcopied.
  - intros e. rewrite Hev, list_elem_of_fmap. split.
    + intros (img & -> & [Hp Hin]%list_elem_of_filter). by exists img.
    + intros (img & Hin & Hp & ->). exists img. split; [done|].
      by apply list_elem_of_filter.
  - intros Hall.
    assert (Hf : filter (present src_files) (out_images d) = out_images d)
      by (by apply filter_all).
    rewrite Hcopied, Hmissing, Hf in *. split; [lia|done].
Qed.

(** The report that a run writes, when it writes one. *)
Lemma written_report previous data src_files n cap seed st report :
  sampling_stage previous data n cap seed = inr st →
  WriteCategoryInfo report
    ∈ effects (create_focused_sample_no_cat90 previous data src_files n cap seed) →
  let ids := sampled_image_ids st in
  let imgs := sampled_images ids (images data) in
  let anns := sampled_annotations ids (annotations data) in
  report
  = mkReport n
      (report_lines_from 1
         (image_categories (top_categories data n) (annotations data))
         (Counter.of_list (category_id <$> anns)) imgs (top_categories data n))
      (length imgs) (length anns) (cat_90_in_sample ids (annotations data)).
Proof.
  intros Hst. cbv zeta. unfold create_focused_sample_no_cat90. rewrite Hst.
  assert (Hcopies : ∀ imgs, WriteCategoryInfo report
                            ∉ WriteJson (make_sampled_data data imgs
                                (sampled_annotations (sampled_image_ids st)
                                   (annotations data)))
                              :: copy_events (copy_images src_files imgs)).
  { intros imgs [?|Hin]%elem_of_cons; [done|].
    destruct (copy_images_spec src_files imgs) as (_ & _ & Hev).
    rewrite Hev in Hin. by apply list_elem_of_fmap in Hin as (? & ? & _). }
  destruct (true_div _ _) as [e|q]; cbn [effects].
  - intros Hin. by apply Hcopies in Hin.
  - intros [Hin|Hin]%elem_of_app; [by apply Hcopies in Hin|].
    apply list_elem_of_singleton in Hin. by injection Hin.
Qed.

(** X17. The report agrees with the data set that was written: one line
    per top category, in ranking order and numbered from 1; the annotation
    count of a line is the number of written annotations of that category
    and its image count the number of written images that contain it; the
    totals are the lengths of the written lists; and the number reported
    as removed is the number of category 90 annotations on the written
    images. *)
Theorem report_matches_written_data previous data src_files n cap seed d report :
  let r := create_focused_sample_no_cat90 previous data src_files n cap seed in
  json_output r = Some d → WriteCategoryInfo report ∈ effects r →
  report_top_n report = n
  ∧ line_cat <$> report_lines report = top_categories data n
  ∧ line_rank <$> report_lines report = seq 1 (length (top_categories data n))
  ∧ Forall (λ line,
        line_count line
        = length (filter (λ ann, category_id ann = line_cat line) (out_annotations d))
        ∧ line_images line
          = length (filter (contains_category data (line_cat line)) (out_images d)))
      (report_lines report)
  ∧ report_total_images report = length (out_images d)
  ∧ report_total_annotations report = length (out_annotations d)
  ∧ report_cat_90_removed report
    = length (filter (λ ann, category_id ann = EXCLUDED ∧ refers_to (out_images d) ann)
                (annotations data)).
Proof.
  cbv zeta. intros Hd Hrep.
  destruct (json_output_inv _ _ _ _ _ _ _ Hd) as (st & Hst & ->).
  rewrite (written_report _ _ _ _ _ _ _ _ Hst Hrep).
  cbn [report_top_n report_lines report_total_images report_total_annotations
       report_cat_90_removed out_images out_annotations make_sampled_data].
  set (ids := sampled_image_ids st).
  set (anns := sampled_annotations ids (annotations data)).
  set (imgs := sampled_images ids (images data)).
  destruct (report_lines_from_spec 1
              (image_categories (top_categories data n) (annotations data))
              (Counter.of_list (category_id <$> anns)) imgs (top_categories data n))
    as (Hcats & Hranks & Hlines).
  split_and!; [done..| |done|done|].
  - eapply Forall_impl; [exact Hlines|]. intros line (Hc & -> & ->). split.
    + rewrite CounterFacts.get_of_list. unfold Counter.occ.
      by apply length_filter_fmap.
    + rewrite images_with_cat_filter. f_equal. apply list_filter_iff. intros img.
      rewrite image_categories_contains. tauto.
  - rewrite cat_90_in_sample_filter. f_equal. apply list_filter_iff. intros ann.
    unfold refers_to, imgs, ids. rewrite Exists_exists.
    rewrite (selected_ids_are_output_ids _ _ _ _ _ _ (image_id ann) Hst). tauto.
Qed.

End CopiesAndReport.

(** ** Annotations of the excluded category *)

Lemma fold_left_filter_skip {A B : Type} (f : B → A → B) (P : A → Prop)
    `{∀ x, Decision (P x)} (l : list A) (m : B) :
  (∀ m x, ¬ P x → f m x = m) →
  fold_left f (filter P l) m = fold_left f l m.
Proof.
  intros Hskip. revert m. induction l as [|x l IH]; intros m; [done|].
  rewrite filter_cons. destruct (decide (P x)); cbn [fold_left].
  - apply IH.
  - rewrite Hskip by done. apply IH.
Qed.

Lemma counted_ids_without_excluded anns :
  counted_ids (filter (λ ann, category_id ann ≠ EXCLUDED) anns) = counted_ids anns.
Proof.
  induction anns as [|ann anns IH]; [done|].
  rewrite filter_cons. cbn [counted_ids].
  destruct (decide (category_id ann ≠ EXCLUDED)); [|done].
  cbn [counted_ids]. rewrite decide_True by done. by rewrite IH.
Qed.

Lemma sampled_annotations_without_excluded ids anns :
  sampled_annotations ids (filter (λ ann, category_id ann ≠ EXCLUDED) anns)
  = sampled_annotations ids anns.
Proof.
  induction anns as [|ann anns IH]; [done|].
  rewrite filter_cons. cbn [sampled_annotations].
  destruct (decide (category_id ann ≠ EXCLUDED)).
  - cbn [sampled_annotations]. rewrite IH.
    destruct (decide (image_id ann ∈ ids)); [|done]. by rewrite decide_True.
  - rewrite IH. by destruct (decide (image_id ann ∈ ids)).
Qed.

Lemma top_categories_without_excluded data n :
  top_categories (without_excluded data) n = top_categories data n.
Proof.
  unfold top_categories, category_counts. cbn [annotations without_excluded].
  by rewrite counted_ids_without_excluded.
Qed.

Lemma image_categories_without_excluded top anns :
  EXCLUDED ∉ top →
  image_categories top (filter (λ ann, category_id ann ≠ EXCLUDED) anns)
  = image_categories top anns.
Proof.
  intros Hnot. unfold image_categories. apply fold_left_filter_skip.
  intros m ann Heq%dec_stable. unfold image_categories_step.
  rewrite decide_False; [done|]. by rewrite Heq.
Qed.

Section Excluded.
Context `{RandomGen} `{SetOrder}.

Lemma sampling_stage_without_excluded previous data n cap seed :
  sampling_stage previous (without_excluded data) n cap seed
  = sampling_stage previous data n cap seed.
Proof.
  unfold sampling_stage. rewrite top_categories_without_excluded.
  cbn [annotations images without_excluded].
  rewrite image_categories_without_excluded; [done|].
  intros Hin. by apply top_categories_not_excluded in Hin.
Qed.

(** X18. The annotations of category 90 have no influence on the data set
    that is produced: with all of them removed from the input, the
    ranking, the file annotations.json, the copies and what the run
    returns or raises are the same. *)
Theorem excluded_annotations_do_not_matter previous data src_files n cap seed :
  let r := create_focused_sample_no_cat90 previous data src_files n cap seed in
  let r' := create_focused_sample_no_cat90 previous (without_excluded data)
              src_files n cap seed in
  top_categories (without_excluded data) n = top_categories data n
  ∧ json_output r' = json_output r
  ∧ copy_state r' = copy_state r
  ∧ outcome r' = outcome r.
Proof.
  cbv zeta. split; [apply top_categories_without_excluded|].
  pose proof (run_cases previous data src_files n cap seed) as Hr.
  pose proof (run_cases previous (without_excluded data) src_files n cap seed) as Hr'.
  cbv zeta in Hr, Hr'.
  rewrite sampling_stage_without_excluded, top_categories_without_excluded in Hr'.
  cbn [annotations images without_excluded] in Hr'.
  destruct (sampling_stage previous data n cap seed) as [e|st].
  { by rewrite Hr, Hr'. }
  rewrite sampled_annotations_without_excluded in Hr'.
  change (make_sampled_data (without_excluded data)) with (make_sampled_data data) in Hr'.
  destruct Hr as (Hcs & Hj & Hnil & Hcons).
  destruct Hr' as (Hcs' & Hj' & Hnil' & Hcons').
  split_and!; [congruence..|].
  destruct (decide (sampled_images (sampled_image_ids st) (images data) = []))
    as [He|Hne].
  - destruct (Hnil He) as [_ ->]. by destruct (Hnil' He) as [_ ->].
  - destruct (Hcons Hne) as (? & _ & ->). by destruct (Hcons' Hne) as (? & _ & ->).
Qed.

(** X19. The script as it is started, with 15 categories, a cap of 150 and
    seed 42, never raises ValueError; it completes exactly when some image
    of the input has an annotation of one of the top 15 categories, and
    ends in ZeroDivisionError otherwise; what it returns has at most 15
    categories and is what it wrote. *)
Theorem main_completes_iff_some_image_qualifies
    previous (train_json : Dataset) (train_images : gset string) :
  let r := main previous train_json train_images in
  let top := top_categories train_json 15 in
  let qualifies :=
    ∃ img, img ∈ images train_json ∧ has_top_category train_json top img in
  outcome r ≠ inl ValueError
  ∧ (qualifies → ∃ d, outcome r = inr (d, top) ∧ json_output r = Some d)
  ∧ (¬ qualifies → outcome r = inl ZeroDivisionError)
  ∧ (length top ≤ 15)%nat.
Proof.
  cbv zeta. unfold main.
  pose proof (run_cases previous train_json train_images 15 150 42) as Hr.
  cbv zeta in Hr.
  destruct (sampling_stage_is_inr previous train_json 15 150 42) as [st Hst];
    [left; lia|].
  rewrite Hst in Hr. destruct Hr as (_ & Hj & Hnil & Hcons).
  pose proof (sample_nonempty_iff _ _ _ _ _ _ Hst ltac:(lia)) as Hiff.
  assert (Hlen : (length (top_categories train_json 15) ≤ 15)%nat).
  { unfold top_categories, Counter.most_common.
    rewrite length_fmap, length_take. lia. }
  destruct (decide (sampled_images (sampled_image_ids st) (images train_json) = []))
    as [He|Hne].
  - destruct (Hnil He) as [_ Ho]. rewrite Ho. split_and!; [done| |done|done].
    intros Hq%Hiff. done.
  - destruct (Hcons Hne) as (? & _ & Ho). rewrite Ho. split_and!; [done| | |done].
    + intros _. eexists. split; [done|exact Hj].
    + intros Hnq. exfalso. apply Hnq. by apply Hiff.
Qed.

End Excluded.

(** ** The further properties at concrete inputs *)

Example run_crowded_report :
  last (effects run_crowded) = Some (WriteCategoryInfo report_crowded).
Proof. vm_compute. reflexivity. Qed.

Lemma sampled_counts_match_output_witness :
  Counter.total (Counter.of_list (category_id <$> out_annotations out_crowded))
    = length (out_annotations out_crowded)
  ∧ other_categories (top_categories crowded 15)
      (Counter.of_list (category_id <$> out_annotations out_crowded))
    = length (filter (λ ann, category_id ann ∉ top_categories crowded 15)
                (out_annotations out_crowded)).
Proof.
  pose proof (@sampled_counts_match_output rotate_gen elements_order
                0 crowded {["p.jpg"; "q.jpg"; "s.jpg"]} 15 3 42 out_crowded
                ltac:(vm_compute; reflexivity)) as Hw.
  cbv zeta in Hw. destruct Hw as (Htotal & _ & _ & Hother & _).
  split; [exact Htotal|exact Hother].
Defined.

Lemma draws_are_without_replacement_witness :
  Forall (λ d,
      d.2 ⊆+ eligible_pool crowded 15 d.1
      ∧ (∀ img, img ∈ d.2 → img ∈ images crowded ∧ contains_category crowded d.1 img)
      ∧ (NoDup (images crowded) → NoDup d.2))
    (draws crowded_state).
Proof.
  apply (@draws_are_without_replacement rotate_gen elements_order 0 crowded 15 3 42
           crowded_state).
  reflexivity.
Defined.

Lemma run_returns_iff_some_image_qualifies_witness :
  ∃ res, outcome run_crowded = inr res.
Proof.
  destruct (@run_returns_iff_some_image_qualifies rotate_gen elements_order
              0 crowded {["p.jpg"; "q.jpg"; "s.jpg"]} 15 3 42 ltac:(lia))
    as ([_ Hreturns] & _).
  apply Hreturns. exists (mkImage 10 "p.jpg" []). split; [left|].
  apply (bool_decide_unpack _). vm_compute. exact I.
Defined.

Lemma zero_cap_or_no_category_selects_nothing_witness :
  ∃ d,
    json_output (@create_focused_sample_no_cat90 rotate_gen elements_order
                   0 crowded {["p.jpg"]} 15 0 42) = Some d
    ∧ out_images d = [] ∧ out_annotations d = []
    ∧ effects (@create_focused_sample_no_cat90 rotate_gen elements_order
                 0 crowded {["p.jpg"]} 15 0 42) = [WriteJson d]
    ∧ outcome (@create_focused_sample_no_cat90 rotate_gen elements_order
                 0 crowded {["p.jpg"]} 15 0 42) = inl ZeroDivisionError.
Proof.
  apply (@zero_cap_or_no_category_selects_nothing rotate_gen elements_order
           0 crowded {["p.jpg"]} 15 0 42).
  left. reflexivity.
Defined.

Lemma returned_data_is_written_witness :
  json_output run_crowded = Some out_crowded
  ∧ [7; 5] = top_categories crowded 15.
Proof.
  destruct (@returned_data_is_written rotate_gen elements_order
              0 crowded {["p.jpg"; "q.jpg"; "s.jpg"]} 15 3 42 out_crowded [7; 5]
              ltac:(vm_compute; reflexivity)) as (Hj & Htop & _).
  split; [exact Hj|exact Htop].
Defined.

Lemma every_output_image_is_annotated_witness :
  mkImage 14 "t.jpg" [] ∈ images crowded
  ∧ ∃ ann, ann ∈ out_annotations out_crowded
           ∧ image_id ann = 14
           ∧ category_id ann ∈ top_categories crowded 15.
Proof.
  apply (@every_output_image_is_annotated rotate_gen elements_order
           0 crowded {["p.jpg"; "q.jpg"; "s.jpg"]} 15 3 42 out_crowded
           ltac:(vm_compute; reflexivity) (mkImage 14 "t.jpg" [])).
  cbn. do 3 right. left.
Defined.

Lemma output_annotations_are_those_of_output_images_witness :
  out_annotations out_crowded
  = filter (λ ann, category_id ann ≠ EXCLUDED ∧ refers_to (out_images out_crowded) ann)
      (annotations crowded).
Proof.
  destruct (@output_annotations_are_those_of_output_images rotate_gen elements_order
              0 crowded {["p.jpg"; "q.jpg"; "s.jpg"]} 15 3 42 out_crowded
              ltac:(vm_compute; reflexivity)) as [Heq _].
  exact Heq.
Defined.

Lemma sample_size_is_bounded_witness :
  (length (out_images out_crowded) ≤ Z.to_nat 15 * Z.to_nat 3)%nat.
Proof.
  destruct (@sample_size_is_bounded rotate_gen elements_order
              0 crowded {["p.jpg"; "q.jpg"; "s.jpg"]} 15 3 42 out_crowded
              ltac:(vm_compute; reflexivity)) as (_ & _ & Hbound).
  apply Hbound. apply (bool_decide_unpack _). vm_compute. exact I.
Defined.

Lemma every_top_category_gets_its_quota_witness :
  Z.min 3 (Z.of_nat (length (images_containing crowded 7)))
  ≤ Z.of_nat (length (filter (contains_category crowded 7) (out_images out_crowded))).
Proof.
  apply (@every_top_category_gets_its_quota rotate_gen elements_order
           0 crowded {["p.jpg"; "q.jpg"; "s.jpg"]} 15 3 42 out_crowded
           ltac:(vm_compute; reflexivity) 7).
  vm_compute. left.
Defined.

Lemma large_cap_selects_every_eligible_image_witness :
  out_images out_scenario
  = filter (has_top_category scenario (top_categories scenario 2)) (images scenario).
Proof.
  apply (@large_cap_selects_every_eligible_image rotate_gen elements_order
           0 scenario {["A.jpg"]} 2 10 42 out_scenario).
  - vm_compute. reflexivity.
  - intros c Hc. rewrite scenario_top in Hc. list_cases Hc; by vm_compute.
Defined.

Lemma copy_accounts_for_every_image_witness :
  ∃ cs,
    copy_state run_crowded = Some cs
    ∧ (copied cs + missing cs)%nat = length (out_images out_crowded)
    ∧ length (copy_events cs) = copied cs
    ∧ (∀ e, e ∈ copy_events cs ↔
            ∃ img, img ∈ out_images out_crowded
                   ∧ file_name img ∈ ({["p.jpg"; "q.jpg"; "s.jpg"]} : gset string)
                   ∧ e = CopyFile (file_name img))
    ∧ ((∀ img, img ∈ out_images out_crowded →
               file_name img ∈ ({["p.jpg"; "q.jpg"; "s.jpg"]} : gset string)) →
       missing cs = 0%nat ∧ copied cs = length (out_images out_crowded)).
Proof.
  apply (@copy_accounts_for_every_image rotate_gen elements_order
           0 crowded {["p.jpg"; "q.jpg"; "s.jpg"]} 15 3 42 out_crowded).
  vm_compute. reflexivity.
Defined.

Lemma report_matches_written_data_witness :
  line_cat <$> report_lines report_crowded = top_categories crowded 15
  ∧ report_total_annotations report_crowded = length (out_annotations out_crowded)
  ∧ report_cat_90_removed report_crowded
    = length (filter (λ ann, category_id ann = EXCLUDED
                             ∧ refers_to (out_images out_crowded) ann)
                (annotations crowded)).
Proof.
  destruct (@report_matches_written_data rotate_gen elements_order
              0 crowded {["p.jpg"; "q.jpg"; "s.jpg"]} 15 3 42 out_crowded report_crowded
              ltac:(vm_compute; reflexivity)
              ltac:(vm_compute; do 3 right; left))
    as (_ & Hcats & _ & _ & _ & Hanns & Hremoved).
  split_and!; [exact Hcats|exact Hanns|exact Hremoved].
Defined.
